(** * The asset-loading pipeline: a shallow embedding and its properties

    The development covers three classes of the sources:
    - [AssetLoad]  (the batch coordinator: [setup], [start], [addTasks],
      [addTask], [getTaskByAsset], [nextTask], [taskDone], [reset]),
    - [AssetSizes] (the size resolver: [define], [reset], [refresh], [size],
      [filter], [test]),
    - [Loader]     (the dispatcher: [cancel], [_putItem], [_getItem]).

    JavaScript objects are values of [Js.JsVal]; a method of a class is a
    computation in a small state, trace and exception monad over the fields
    of [this].  Calls that leave the class (event listeners, the cache, the
    tasks' own [start] and [destroy]) are recorded in the trace in the order
    in which the code makes them. *)

From stdpp Require Import base option list strings gmap.
From Stdlib Require Import QArith Sorted Ascii.

Close Scope Q_scope.

(** ** JavaScript values *)

Module Js.

(** Objects keep their own properties as an association list, in the order
    in which [for ... in] enumerates them.  Arrays and functions are objects
    too and can carry extra properties (the coordinator writes [type] on
    whatever collection it is given).  Numbers are restricted to integers,
    property names are taken not to be array indices, and a name that is not
    an own property reads as [undefined] (nothing is inherited). *)
#[warnings="-register-all"]
Inductive JsVal :=
| VUndefined
| VNull
| VBool (b : bool)
| VNum (n : Z)
| VStr (s : string)
| VFun (name : string) (props : list (string * JsVal))
| VObj (props : list (string * JsVal))
| VArr (items : list JsVal) (props : list (string * JsVal)).

Inductive Exn :=
| TypeError
| ReferenceError
| Thrown (msg : string).

(** The names that every plain object inherits from [Object.prototype]
    (ECMAScript, Annex B included).  Read on an object that has no own
    property of that name, each of them gives a function, and [__proto__]
    gives the prototype itself: a value that is truthy, is not [false], and
    has no method of the sources. *)
Definition prototype_members : list string :=
  ["constructor"; "hasOwnProperty"; "isPrototypeOf"; "propertyIsEnumerable";
   "toLocaleString"; "toString"; "valueOf"; "__proto__";
   "__defineGetter__"; "__defineSetter__"; "__lookupGetter__";
   "__lookupSetter__"].

Definition inherited (k : string) : bool :=
  bool_decide (k ∈ prototype_members).

(** [!!v] *)
Definition truthy (v : JsVal) : bool :=
  match v with
  | VUndefined | VNull => false
  | VBool b => b
  | VNum n => negb (n =? 0)%Z
  | VStr s => negb (String.eqb s "")
  | VFun _ _ | VObj _ | VArr _ _ => true
  end.

Fixpoint assoc_get (k : string) (ps : list (string * JsVal)) : option JsVal :=
  match ps with
  | [] => None
  | (k', v) :: rest => if String.eqb k k' then Some v else assoc_get k rest
  end.

(** Assignment keeps the position of an existing key and appends a new one. *)
Fixpoint assoc_set (k : string) (x : JsVal) (ps : list (string * JsVal))
  : list (string * JsVal) :=
  match ps with
  | [] => [(k, x)]
  | (k', v) :: rest =>
      if String.eqb k k' then (k', x) :: rest else (k', v) :: assoc_set k x rest
  end.

Fixpoint assoc_del (k : string) (ps : list (string * JsVal))
  : list (string * JsVal) :=
  match ps with
  | [] => []
  | (k', v) :: rest =>
      if String.eqb k k' then rest else (k', v) :: assoc_del k rest
  end.

(** [v.k]: reading a property of [null] or [undefined] throws, a primitive
    has no own properties. *)
Definition get_prop (v : JsVal) (k : string) : Exn + JsVal :=
  match v with
  | VUndefined | VNull => inl TypeError
  | VFun _ ps | VObj ps | VArr _ ps => inr (default VUndefined (assoc_get k ps))
  | VBool _ | VNum _ | VStr _ => inr VUndefined
  end.

(** [v.k] where the read cannot throw. *)
Definition prop (v : JsVal) (k : string) : JsVal :=
  match get_prop v k with
  | inr x => x
  | inl _ => VUndefined
  end.

(** [v.k = x] in strict code (the sources are ES modules): writing to a
    primitive throws. *)
Definition set_prop (v : JsVal) (k : string) (x : JsVal) : Exn + JsVal :=
  match v with
  | VFun n ps => inr (VFun n (assoc_set k x ps))
  | VObj ps => inr (VObj (assoc_set k x ps))
  | VArr items ps => inr (VArr items (assoc_set k x ps))
  | _ => inl TypeError
  end.

(** [delete v.k] *)
Definition delete_prop (v : JsVal) (k : string) : JsVal :=
  match v with
  | VFun n ps => VFun n (assoc_del k ps)
  | VObj ps => VObj (assoc_del k ps)
  | VArr items ps => VArr items (assoc_del k ps)
  | _ => v
  end.

(** [a.push(x)]: only arrays have [push]. *)
Definition push (a : JsVal) (x : JsVal) : Exn + JsVal :=
  match a with
  | VArr items ps => inr (VArr (items ++ [x]) ps)
  | _ => inl TypeError
  end.

(** The result of a numeric division, as far as the coordinator needs it:
    the exact quotient.  (On counters below 2^53 the rounded quotient of
    doubles is ordered as the exact one and is 1.0 only for equal counters.) *)
Inductive Num :=
| Fin (q : Q)
| Infinity
| NaN.

(** [n / d] for two counters. *)
Definition div (n d : nat) : Num :=
  match d, n with
  | O, O => NaN
  | O, _ => Infinity
  | _, _ => Fin (Z.of_nat n # Pos.of_nat d)
  end.

End Js.

(** ** The batch coordinator *)

Module AssetLoad.
Import Js.

(** The sources are preprocessed: a block between [@if DEBUG] and [@endif]
    is kept in the debug build only, a block between [@if RELEASE] and
    [@endif] in the release build only. *)
Inductive Build := DEBUG | RELEASE.

Inductive Mode := SINGLE_MODE | MAP_MODE | LIST_MODE.

Inductive Status := WAITING | RUNNING | FINISHED.

(** A registered task class, as far as the coordinator uses it: its static
    [test] and a name that stands for its constructor. *)
Record TaskClass := {
  cname : string;
  test : JsVal → bool
}.

(** A task object.  [task_ref] is the identity of the object ([indexOf]
    compares tasks with [===]). *)
Record Task := {
  task_ref : nat;
  task_class : string;
  task_status : Status;
  task_id : option string;
  task_cache : bool;
  task_complete : bool;
  task_original : JsVal
}.

(** Modelled from the spec: the Task base class ('./tasks/Task' is imported
    by the coordinator and by every task variant, and is not among the
    sources).  A task is bound to one descriptor, starts WAITING, and takes
    its optional id, its cache flag and its completion hook from the
    descriptor. *)
Definition Task_new (ref : nat) (cls : TaskClass) (asset : JsVal) : Task :=
  {| task_ref := ref;
     task_class := cname cls;
     task_status := WAITING;
     task_id := match prop asset "id" with VStr s => Some s | _ => None end;
     task_cache := truthy (prop asset "cache");
     task_complete := truthy (prop asset "complete");
     task_original := asset |}.

(** The task variants of the sources, by their static [test]. *)
Definition LoadTask : TaskClass :=
  {| cname := "LoadTask";
     test := λ asset, truthy (prop asset "src") |}.

Definition ColorAlphaTask : TaskClass :=
  {| cname := "ColorAlphaTask";
     test := λ asset,
       truthy (prop asset "color") && truthy (prop asset "alpha") |}.

Definition TextureTask : TaskClass :=
  {| cname := "TextureTask";
     test := λ asset,
       match prop asset "type" with
       | VStr "pixi" =>
           truthy (prop asset "image") ||
           (truthy (prop asset "alpha") && truthy (prop asset "color"))
       | _ => false
       end |}.

(** [!!task.id] *)
Definition has_id (t : Task) : bool :=
  match task_id t with
  | Some s => negb (String.eqb s "")
  | None => false
  end.

(** Modelled from the spec: registration with the manager
    (AssetManager.register is not among the sources): an external append to
    the registry. *)
Definition register (taskDefs : list TaskClass) (cls : TaskClass)
  : list TaskClass :=
  taskDefs ++ [cls].

(** What the coordinator does to the outside, in order. *)
Inductive Event :=
| Progress (p : Num)
| TaskDone (result original : JsVal) (assets : list JsVal)
| Complete (results : JsVal)
| CacheWrite (id : option string) (result : JsVal)
| TaskStart (ref : nat)
| TaskComplete (ref : nat) (result : JsVal)
| TaskDestroy (ref : nat)
| DebugError (msg : string).

(** The fields of [this].  [nextRef] is not a field: it is the identity that
    the next [new TaskClass(asset)] receives. *)
Record Load := {
  mode : Mode;
  startAll : bool;
  cacheAll : bool;
  tasks : list Task;
  results : JsVal;
  running : bool;
  numLoaded : nat;
  total : nat;
  type : option string;
  nextRef : nat
}.

(** The default state of a batch: the defaults that the constructor
    documents for its fields (mode 1, which is MAP_MODE).  It is the state
    the constructor is written to leave, not one it leaves: like [reset], it
    assigns the mode through the bare name [MAP_MODE], which the module does
    not declare. *)
Definition fresh (ref : nat) : Load :=
  {| mode := MAP_MODE; startAll := true; cacheAll := false; tasks := [];
     results := VNull; running := false; numLoaded := 0; total := 0;
     type := None; nextRef := ref |}.

Definition with_mode (m : Mode) (b : Load) : Load :=
  {| mode := m; startAll := startAll b; cacheAll := cacheAll b;
     tasks := tasks b; results := results b; running := running b;
     numLoaded := numLoaded b; total := total b; type := type b;
     nextRef := nextRef b |}.

Definition with_tasks (ts : list Task) (b : Load) : Load :=
  {| mode := mode b; startAll := startAll b; cacheAll := cacheAll b;
     tasks := ts; results := results b; running := running b;
     numLoaded := numLoaded b; total := total b; type := type b;
     nextRef := nextRef b |}.

Definition with_results (r : JsVal) (b : Load) : Load :=
  {| mode := mode b; startAll := startAll b; cacheAll := cacheAll b;
     tasks := tasks b; results := r; running := running b;
     numLoaded := numLoaded b; total := total b; type := type b;
     nextRef := nextRef b |}.

Definition with_running (r : bool) (b : Load) : Load :=
  {| mode := mode b; startAll := startAll b; cacheAll := cacheAll b;
     tasks := tasks b; results := results b; running := r;
     numLoaded := numLoaded b; total := total b; type := type b;
     nextRef := nextRef b |}.

Definition with_numLoaded (n : nat) (b : Load) : Load :=
  {| mode := mode b; startAll := startAll b; cacheAll := cacheAll b;
     tasks := tasks b; results := results b; running := running b;
     numLoaded := n; total := total b; type := type b;
     nextRef := nextRef b |}.

(** [this.tasks.push(task); ++this.total], with the allocation of [task]. *)
Definition with_pushed (t : Task) (b : Load) : Load :=
  {| mode := mode b; startAll := startAll b; cacheAll := cacheAll b;
     tasks := tasks b ++ [t]; results := results b; running := running b;
     numLoaded := numLoaded b; total := S (total b); type := type b;
     nextRef := S (nextRef b) |}.

(** The options of [setup], after the manager has filled in the defaults. *)
Record Options := {
  opt_startAll : bool;
  opt_autoStart : bool;
  opt_cacheAll : bool;
  opt_type : option string
}.

Definition with_options (o : Options) (b : Load) : Load :=
  {| mode := mode b; startAll := opt_startAll o; cacheAll := opt_cacheAll o;
     tasks := tasks b; results := results b; running := running b;
     numLoaded := numLoaded b; total := total b; type := opt_type o;
     nextRef := nextRef b |}.

(** *** The monad of a method body

    A method reads and writes the fields of [this], calls out, and either
    returns or throws; what it wrote and emitted before a throw stays. *)
Record Res (A : Type) := mkRes {
  out : Exn + A;
  st : Load;
  evs : list Event
}.
Arguments mkRes {A} _ _ _.
Arguments out {A} _.
Arguments st {A} _.
Arguments evs {A} _.

Definition M (A : Type) : Type := Load → Res A.

Definition ret {A} (a : A) : M A := λ b, mkRes (inr a) b [].

Definition raise {A} (e : Exn) : M A := λ b, mkRes (inl e) b [].

Definition bind {A B} (m : M A) (f : A → M B) : M B := λ b,
  let r := m b in
  match out r with
  | inl e => mkRes (inl e) (st r) (evs r)
  | inr a => let r' := f a (st r) in mkRes (out r') (st r') (evs r ++ evs r')
  end.

Definition this : M Load := λ b, mkRes (inr b) b [].

Definition modify (f : Load → Load) : M unit := λ b, mkRes (inr tt) (f b) [].

Definition emit (e : Event) : M unit := λ b, mkRes (inr tt) b [e].

Definition lift {A} (x : Exn + A) : M A :=
  match x with
  | inl e => raise e
  | inr a => ret a
  end.

#[global] Instance M_ret : MRet M := @ret.
#[global] Instance M_bind : MBind M := λ A B f m, bind m f.

Section Coordinator.

(** [this.manager.taskDefs] and the build the sources were preprocessed for. *)
Variable taskDefs : list TaskClass.
Variable build : Build.

(** [Debug.error(msg, ...)], present in the debug build only. *)
Definition debug_error (msg : string) : M unit :=
  match build with
  | DEBUG => emit (DebugError msg)
  | RELEASE => ret tt
  end.

Definition _getAssetsContainer (m : Mode) : JsVal :=
  match m with
  | SINGLE_MODE => VNull
  | LIST_MODE => VArr [] []
  | MAP_MODE => VObj []
  end.

Definition _applyDefaults (asset : JsVal) : JsVal :=
  match asset with
  | VStr _ => VObj [("src", asset)]
  | VFun _ _ => VObj [("async", asset)]
  | _ => asset
  end.

(** The loop runs from index 0 upwards and returns at the first class whose
    [test] accepts. *)
Fixpoint getTaskByAsset (defs : list TaskClass) (asset : JsVal)
  : option TaskClass :=
  match defs with
  | [] => None
  | TaskClass :: rest =>
      if test TaskClass asset then Some TaskClass
      else getTaskByAsset rest asset
  end.

(** [this.type] as a condition. *)
Definition type_set (ty : option string) : bool :=
  match ty with
  | Some s => negb (String.eqb s "")
  | None => false
  end.

(** [if (asset.type === undefined && this.type) asset.type = this.type;] *)
Definition default_type (ty : option string) (asset : JsVal) : Exn + JsVal :=
  match get_prop asset "type" with
  | inl e => inl e
  | inr VUndefined =>
      match ty with
      | Some s => if type_set ty then set_prop asset "type" (VStr s) else inr asset
      | None => inr asset
      end
  | inr _ => inr asset
  end.

(** [if (assets.type === this.type && this.type) delete assets.type;] *)
Definition undo_type (ty : option string) (assets : JsVal) : JsVal :=
  match get_prop assets "type", ty with
  | inr (VStr s), Some s' =>
      if String.eqb s s' && type_set ty then delete_prop assets "type" else assets
  | _, _ => assets
  end.

(** [if (asset.cache === undefined && this.cacheAll) asset.cache = true;] *)
Definition default_cache (all : bool) (asset : JsVal) : Exn + JsVal :=
  match get_prop asset "cache" with
  | inl e => inl e
  | inr VUndefined => if all then set_prop asset "cache" (VBool true) else inr asset
  | inr _ => inr asset
  end.

(** Returns the new task, or nothing ([undefined]) when no class matches. *)
Definition addTask (asset : JsVal) : M (option Task) :=
  b ← this;
  asset ← lift (default_type (type b) asset);
  match getTaskByAsset taskDefs asset with
  | Some TaskClass =>
      asset ← lift (default_cache (cacheAll b) asset);
      let task := Task_new (nextRef b) TaskClass asset in
      modify (with_pushed task);;
      mret (Some task)
  | None =>
      debug_error "Unable to find a task definition for asset";;
      mret None
  end.

(** [task.id = id] on a task that is already in [this.tasks]. *)
Definition assign_id (ref : nat) (id : string) (ts : list Task) : list Task :=
  (λ t, if Nat.eqb (task_ref t) ref
        then {| task_ref := task_ref t; task_class := task_class t;
                task_status := task_status t; task_id := Some id;
                task_cache := task_cache t; task_complete := task_complete t;
                task_original := task_original t |}
        else t) <$> ts.

(** The loop over an array; [task.id] on the [undefined] that [addTask]
    returns for an unmatched asset is a TypeError. *)
Fixpoint addTasks_array (items : list JsVal) (mode : Mode) : M Mode :=
  match items with
  | [] => mret mode
  | item :: rest =>
      task ← addTask (_applyDefaults item);
      match task with
      | None => raise TypeError
      | Some t => addTasks_array rest (if has_id t then mode else LIST_MODE)
      end
  end.

(** The loop over the keys of a plain object. *)
Fixpoint addTasks_object (props : list (string * JsVal)) : M unit :=
  match props with
  | [] => mret tt
  | (id, item) :: rest =>
      task ← addTask (_applyDefaults item);
      match task with
      | None => raise TypeError
      | Some t =>
          (if has_id t then mret tt
           else modify (λ b, with_tasks (assign_id (task_ref t) id (tasks b)) b));;
          addTasks_object rest
      end
  end.

Definition addTasks (assets : JsVal) : M Mode :=
  b ← this;
  let assets := _applyDefaults assets in
  assets ← lift (default_type (type b) assets);
  match getTaskByAsset taskDefs assets with
  | Some _ =>
      addTask assets;;
      mret SINGLE_MODE
  | None =>
      match undo_type (type b) assets with
      | VArr items _ => addTasks_array items MAP_MODE
      | VObj props => addTasks_object props;; mret MAP_MODE
      | _ => debug_error "Asset type unsupported";; mret MAP_MODE
      end
  end.

(** One pass over the pending tasks.  [task.start] is recorded; the task
    completes later, through [taskDone]. *)
Fixpoint nextTask_from (all : bool) (ts : list Task) : list Task * list Event :=
  match ts with
  | [] => ([], [])
  | task :: rest =>
      match task_status task with
      | WAITING =>
          let started :=
            {| task_ref := task_ref task; task_class := task_class task;
               task_status := RUNNING; task_id := task_id task;
               task_cache := task_cache task;
               task_complete := task_complete task;
               task_original := task_original task |} in
          if all
          then let '(rest', es) := nextTask_from all rest in
               (started :: rest', TaskStart (task_ref task) :: es)
          else (started :: rest, [TaskStart (task_ref task)])
      | _ =>
          let '(rest', es) := nextTask_from all rest in (task :: rest', es)
      end
  end.

Definition nextTask : M unit := λ b,
  let '(ts, es) := nextTask_from (startAll b) (tasks b) in
  mkRes (inr tt) (with_tasks ts b) es.

Definition start : M unit :=
  emit (Progress (Fin 0%Q));;
  modify (with_running true);;
  nextTask.

Definition setup (assets : JsVal) (options : Options) : M unit :=
  modify (with_options options);;
  m ← addTasks assets;
  modify (with_mode m);;
  modify (with_results (_getAssetsContainer m));;
  if opt_autoStart options then start else mret tt.

(** Modelled from the spec: a task after
    [task.status = Task.FINISHED; task.destroy();] ([Task.prototype.destroy]
    is not among the sources): it is FINISHED, and there is no transition
    out of FINISHED.  The call of [destroy] is recorded in the trace. *)
Definition finished (task : Task) : Task :=
  {| task_ref := task_ref task; task_class := task_class task;
     task_status := FINISHED; task_id := task_id task;
     task_cache := task_cache task; task_complete := task_complete task;
     task_original := task_original task |}.

(** [reset] finishes and destroys every pending task, sets both counters to
    zero and then evaluates [MAP_MODE].  The module declares no such
    identifier (there is only the static [AssetLoad.MAP_MODE]), so the
    assignment to [this.mode] throws a ReferenceError, and the statements
    after it, which would empty the task list, clear the container and the
    options and stop the batch, are not reached. *)
Definition reset : M unit := λ b,
  mkRes (inl ReferenceError)
    {| mode := mode b; startAll := startAll b; cacheAll := cacheAll b;
       tasks := finished <$> tasks b; results := results b;
       running := running b; numLoaded := 0; total := 0; type := type b;
       nextRef := nextRef b |}
    (TaskDestroy ∘ task_ref <$> tasks b).

(** [this.tasks.indexOf(task)] *)
Fixpoint indexOf (ts : list Task) (ref : nat) : option nat :=
  match ts with
  | [] => None
  | t :: rest =>
      if Nat.eqb (task_ref t) ref then Some 0
      else S <$> indexOf rest ref
  end.

(** The [switch] on [this.mode] that stores a result.  (In MAP_MODE the
    assignment makes an own property of the container for every id but
    [__proto__], which is outside the model: that assignment would replace
    the prototype of the container.) *)
Definition fold_result (m : Mode) (container : JsVal) (id : option string)
    (result : JsVal) : Exn + JsVal :=
  match m with
  | SINGLE_MODE => inr result
  | LIST_MODE => push container result
  | MAP_MODE => set_prop container (default "null" id) result
  end.

(** A completion signal as it reaches the coordinator: the task, what it
    produced, and what its completion hook and the listeners of the
    [taskDone] event push on the [assets] array they are handed. *)
Record Completion := {
  c_task : nat;
  c_result : JsVal;
  c_hook : list JsVal;
  c_heard : list JsVal
}.

Definition mode_eqb (a b : Mode) : bool :=
  match a, b with
  | SINGLE_MODE, SINGLE_MODE | MAP_MODE, MAP_MODE | LIST_MODE, LIST_MODE => true
  | _, _ => false
  end.

(** The end of [taskDone], from the shape check on. *)
Definition taskDone_finish (m : Mode) : M unit :=
  b ← this;
  if mode_eqb (mode b) MAP_MODE && negb (mode_eqb m (mode b))
  then
    match build with
    | DEBUG =>
        emit (DebugError "Load assets require IDs to return mapped results")
    | RELEASE => raise (Thrown "Assets require IDs")
    end
  else
    match tasks b with
    | [] => emit (Complete (results b))
    | _ :: _ => nextTask
    end.

(** The middle of [taskDone]: the result is stored by mode and, for a task
    with the cache flag, handed to the cache of the manager. *)
Definition taskDone_store (task : Task) (result : JsVal) : M unit :=
  if truthy result
  then
    b ← this;
    r ← lift (fold_result (mode b) (results b) (task_id task) result);
    modify (with_results r);;
    if task_cache task
    then emit (CacheWrite (task_id task) result)
    else mret tt
  else mret tt.

(** The completion hook of the task, the [taskDone] event and the end of the
    task; returns the [assets] array as the hook and the listeners leave it. *)
Definition taskDone_notify (task : Task) (result : JsVal) (c : Completion)
  : M (list JsVal) :=
  let assets := if task_complete task then c_hook c else [] in
  (if task_complete task
   then emit (TaskComplete (task_ref task) result)
   else mret tt);;
  emit (TaskDone result (task_original task) assets);;
  emit (TaskDestroy (task_ref task));;
  mret (assets ++ c_heard c).

(** [this.trigger('progress', ++this.numLoaded / this.total);] *)
Definition taskDone_progress : M unit :=
  b ← this;
  modify (with_numLoaded (S (numLoaded b)));;
  emit (Progress (div (S (numLoaded b)) (total b))).

(** [this.tasks.indexOf(task)] together with the task found there. *)
Definition pending (b : Load) (ref : nat) : option (nat * Task) :=
  index ← indexOf (tasks b) ref;
  task ← tasks b !! index;
  Some (index, task).

Definition taskDone (c : Completion) : M unit :=
  b ← this;
  if negb (running b) then mret tt
  else
    let result := if truthy (c_result c) then c_result c else VNull in
    match pending b (c_task c) with
    | None => mret tt
    | Some (index, task) =>
        modify (with_tasks (delete index (tasks b)));;
        taskDone_store task result;;
        assets ← taskDone_notify task result c;
        m ← addTasks (VArr assets []);
        taskDone_progress;;
        taskDone_finish m
    end.

(** A run of the batch: the completion signals arrive one after the other,
    each handled to its end; an exception leaves through the signalling
    task's callback and the batch stays as the handler left it. *)
Fixpoint run (cs : list Completion) (b : Load) : Load * list Event :=
  match cs with
  | [] => (b, [])
  | c :: rest =>
      let r := taskDone c b in
      let '(b', es) := run rest (st r) in
      (b', evs r ++ es)
  end.

(** What a completion signal puts into the container: its result, when the
    batch is running, the task is pending and the result is not empty. *)
Definition stores (b : Load) (c : Completion) : list JsVal :=
  if running b && bool_decide (is_Some (pending b (c_task c)))
     && truthy (c_result c)
  then [c_result c]
  else [].

(** The results stored along a run, in the order of the signals. *)
Fixpoint stored (cs : list Completion) (b : Load) : list JsVal :=
  match cs with
  | [] => []
  | c :: rest => stores b c ++ stored rest (st (taskDone c b))
  end.

(** A completion signal can only come from a task that was started: the
    callback is bound in [nextTask], when the task is set RUNNING.  (A task
    that is no longer pending can still signal; [taskDone] ignores it.) *)
Definition started (b : Load) (ref : nat) : Prop :=
  ∀ t, t ∈ tasks b → task_ref t = ref → task_status t = RUNNING.

(** The states a batch goes through: built, set up once, started by hand
    when [autoStart] was off, driven by completion signals.  ([reset] is not
    among the steps: it throws before it has restored the defaults.) *)
Inductive reachable : Load → Prop :=
| reach_new ref : reachable (fresh ref)
| reach_setup ref assets options :
    reachable (st (setup assets options (fresh ref)))
| reach_start b :
    reachable b → running b = false → reachable (st (start b))
| reach_done b c :
    reachable b → started b (c_task c) → reachable (st (taskDone c b)).

End Coordinator.

(** The result of a completion signal, [result || null]. *)
Definition produced (c : Completion) : JsVal :=
  if truthy (c_result c) then c_result c else VNull.

(** The events of the notification step, and the array it ends with. *)
Definition notifications (task : Task) (result : JsVal) (c : Completion)
  : list Event :=
  (if task_complete task then [TaskComplete (task_ref task) result] else [])
  ++ [TaskDone result (task_original task)
        (if task_complete task then c_hook c else []);
      TaskDestroy (task_ref task)].

Definition additions (task : Task) (c : Completion) : list JsVal :=
  (if task_complete task then c_hook c else []) ++ c_heard c.

(** The values of the [progress] events of a trace, in order. *)
Definition progress_values (es : list Event) : list Num :=
  omap (λ e, match e with Progress p => Some p | _ => None end) es.

(** Order on the numbers that [progress] carries. *)
Definition Num_le (p q : Num) : Prop :=
  match p, q with
  | Fin a, Fin b => (a <= b)%Q
  | Fin _, Infinity => True
  | Infinity, Infinity => True
  | _, _ => False
  end.

(** [p === 1.0] *)
Definition is_one (p : Num) : Prop :=
  match p with
  | Fin q => (q == 1)%Q
  | _ => False
  end.

(** How many tasks of a list are RUNNING. *)
Definition is_running (t : Task) : bool :=
  match task_status t with
  | RUNNING => true
  | _ => false
  end.

Definition count_running (ts : list Task) : nat :=
  length (filter (λ t, is_running t = true) ts).

Definition is_start (e : Event) : bool :=
  match e with
  | TaskStart _ => true
  | _ => false
  end.

Definition is_cache_write (e : Event) : bool :=
  match e with
  | CacheWrite _ _ => true
  | _ => false
  end.

(** A descriptor without a usable [id] (none, not a string, or empty). *)
Definition lacks_id (asset : JsVal) : bool :=
  match prop (_applyDefaults asset) "id" with
  | VStr s => String.eqb s ""
  | _ => true
  end.

(** The registry matches the descriptor, once it carries the default type
    of the batch. *)
Definition matched (taskDefs : list TaskClass) (ty : option string)
    (asset : JsVal) : bool :=
  match default_type ty (_applyDefaults asset) with
  | inr a => bool_decide (is_Some (getTaskByAsset taskDefs a))
  | inl _ => false
  end.

(** A relation between the state before, the state after and the events
    emitted, which holds of doing nothing and composes along a sequence. *)
Class Step (R : Load → Load → list Event → Prop) : Prop := {
  step_refl : ∀ b, R b b [];
  step_trans : ∀ b1 b2 b3 e1 e2,
    R b1 b2 e1 → R b2 b3 e2 → R b1 b3 (e1 ++ e2)
}.

(** The computation stays within the relation, whether it returns or
    throws. *)
Definition sound (R : Load → Load → list Event → Prop) {A} (m : M A) : Prop :=
  ∀ b, R b (st (m b)) (evs (m b)).

(** What admitting descriptors may do to a batch: it only appends tasks and
    counts them, leaves the RUNNING tasks as they are, and says nothing to
    the outside but through [Debug.error]. *)
Record admission (b b' : Load) (es : list Event) : Prop := {
  adm_mode : mode b' = mode b;
  adm_results : results b' = results b;
  adm_running : running b' = running b;
  adm_numLoaded : numLoaded b' = numLoaded b;
  adm_startAll : startAll b' = startAll b;
  adm_cacheAll : cacheAll b' = cacheAll b;
  adm_type : type b' = type b;
  adm_total : total b' + length (tasks b) = total b + length (tasks b');
  adm_grow : length (tasks b) ≤ length (tasks b');
  adm_status : count_running (tasks b') = count_running (tasks b);
  adm_events : Forall (λ e, ∃ msg, e = DebugError msg) es
}.

(** What a pass of [nextTask] may do: it sets WAITING tasks RUNNING, one
    [start] each, and touches nothing else. *)
Record dispatch (b b' : Load) (es : list Event) : Prop := {
  dis_mode : mode b' = mode b;
  dis_results : results b' = results b;
  dis_running : running b' = running b;
  dis_numLoaded : numLoaded b' = numLoaded b;
  dis_total : total b' = total b;
  dis_startAll : startAll b' = startAll b;
  dis_length : length (tasks b') = length (tasks b);
  dis_count : count_running (tasks b') = count_running (tasks b) + length es;
  dis_events : Forall (λ e, is_start e = true) es;
  dis_serial : startAll b = false → length es ≤ 1
}.

(** The counters of a batch: what is loaded and what is pending is within
    the total. *)
Definition counters_ok (b : Load) : Prop :=
  numLoaded b + length (tasks b) ≤ total b.

(** The scheduling state of a batch: nothing runs before the start, and a
    serial batch runs one task at a time. *)
Definition serial_ok (b : Load) : Prop :=
  (running b = false → count_running (tasks b) = 0) ∧
  (startAll b = false → count_running (tasks b) ≤ 1).

(** The container has the shape that the mode stores into. *)
Definition container_ok (b : Load) : bool :=
  match mode b, results b with
  | SINGLE_MODE, _ => true
  | LIST_MODE, VArr _ _ => true
  | MAP_MODE, VObj _ => true
  | _, _ => false
  end.

(** The values that carry properties of their own. *)
Definition is_object (v : JsVal) : bool :=
  match v with
  | VFun _ _ | VObj _ | VArr _ _ => true
  | _ => false
  end.

(** A descriptor as callers submit it: an identifier, a callable, or a
    structured record (an array is an object too). *)
Definition descriptor (asset : JsVal) : bool :=
  match asset with
  | VStr _ | VFun _ _ | VObj _ | VArr _ _ => true
  | _ => false
  end.

(** *** Further notions for the properties of the coordinator *)

(** The identities of the tasks of a list, in order. *)
Definition refs (ts : list Task) : list nat := task_ref <$> ts.

(** The pending tasks are distinct objects, all built before the next one. *)
Definition refs_ok (b : Load) : Prop :=
  NoDup (refs (tasks b)) ∧ Forall (λ r, r < nextRef b) (refs (tasks b)).

(** What building tasks does to the identities: the pending list keeps the
    ones it has and gains, at its end, the ones built in between. *)
Record allocation (b b' : Load) (es : list Event) : Prop := {
  alc_next : nextRef b ≤ nextRef b';
  alc_refs :
    refs (tasks b') = refs (tasks b) ++ seq (nextRef b) (nextRef b' - nextRef b)
}.

(** Every task ever counted is either loaded or pending. *)
Definition counters_exact (b : Load) : Prop :=
  numLoaded b + length (tasks b) = total b.

Definition is_waiting (t : Task) : bool :=
  match task_status t with
  | WAITING => true
  | _ => false
  end.

(** The identities of the WAITING tasks of a list, in admission order. *)
Definition waiting (ts : list Task) : list nat :=
  refs (filter (λ t, is_waiting t = true) ts).

(** The id a task admitted under a key ends with: its own, or the key. *)
Definition keyed_id (entry : string * JsVal) : option string :=
  if lacks_id entry.2
  then Some entry.1
  else match prop (_applyDefaults entry.2) "id" with
       | VStr s => Some s
       | _ => None
       end.

(** What the default type of the batch makes of the [type] of a
    descriptor, and the default cache flag of its [cache]. *)
Definition defaulted_type (ty : option string) (v : JsVal) : JsVal :=
  match v, ty with
  | VUndefined, Some s => if type_set ty then VStr s else VUndefined
  | _, _ => v
  end.

Definition defaulted_cache (all : bool) (v : JsVal) : JsVal :=
  match v with
  | VUndefined => if all then VBool true else VUndefined
  | _ => v
  end.

(** An event other than [complete]. *)
Definition quiet (e : Event) : Prop := ∀ x, e ≠ Complete x.

End AssetLoad.

(** ** The size resolver *)

Module AssetSizes.
Import Js.

(** A size object, as [define] builds it. *)
Record Size := {
  size_id : string;
  maxSize : Q;
  scale : Q;
  fallback : list string
}.

(** The fields of [this]. *)
Record Sizes := {
  _sizes : list Size;
  _sizesMap : gmap string Size;
  _preferredSize : option Size
}.

(** The state the constructor leaves. *)
Definition empty : Sizes :=
  {| _sizes := []; _sizesMap := ∅; _preferredSize := None |}.

(** [a > b] on numbers. *)
Definition gt (a b : Q) : bool := negb (Qle_bool a b).

(** [Math.min(a, b)] *)
Definition Math_min (a b : Q) : Q := if Qle_bool a b then a else b.

(** [Array.prototype.sort] with the comparator [a.maxSize - b.maxSize]:
    ascending, and stable (an element stays before the later elements it
    compares equal to). *)
Fixpoint sort_insert (x : Size) (l : list Size) : list Size :=
  match l with
  | [] => [x]
  | y :: rest =>
      if Qle_bool (maxSize x) (maxSize y) then x :: y :: rest
      else y :: sort_insert x rest
  end.

Definition sort (l : list Size) : list Size := foldr sort_insert [] l.

Definition define (id : string) (maxSize scale : Q) (fallback : list string)
    (s : Sizes) : Sizes :=
  let size :=
    {| size_id := id; maxSize := maxSize; scale := scale;
       fallback := fallback |} in
  {| _sizes := sort (_sizes s ++ [size]);
     _sizesMap := <[id := size]> (_sizesMap s);
     _preferredSize := _preferredSize s |}.

Definition reset (s : Sizes) : Sizes :=
  {| _sizes := []; _sizesMap := ∅; _preferredSize := _preferredSize s |}.

Section Refresh.

(** What [include('devicePixelRatio', false)] finds, if anything. *)
Variable devicePixelRatio : option Q.

(** [include('devicePixelRatio', false) || 1] *)
Definition pixelRatio : Q :=
  match devicePixelRatio with
  | Some r => if Qeq_bool r 0 then 1%Q else r
  | None => 1%Q
  end.

(** The loop of [refresh], over the sizes from the last index down: it keeps
    the size it is at while the test holds and breaks when it fails.  (The
    quotient of the test is the exact one; it is the quotient that the code
    computes when the pixel ratio is 1.) *)
Fixpoint refresh_from (descending : list Size) (minSize : Q)
    (size : option Size) : option Size :=
  match descending with
  | [] => size
  | s :: rest =>
      if gt (maxSize s / pixelRatio) minSize
      then refresh_from rest minSize (Some s)
      else size
  end.

Definition refresh (width height : Q) (s : Sizes) : Sizes :=
  let minSize := Math_min width height in
  {| _sizes := _sizes s;
     _sizesMap := _sizesMap s;
     _preferredSize := refresh_from (reverse (_sizes s)) minSize None |}.

End Refresh.

(** The loop of [size] over the fallback chain: the first entry whose mark is
    not [false] replaces the size (by whatever the map holds under it) and
    ends the loop; without such an entry the size stays. *)
Fixpoint size_fallback (supported : gmap string bool)
    (map : gmap string Size) (chain : list string) (size : option Size)
  : option Size :=
  match chain with
  | [] => size
  | alt :: rest =>
      match supported !! alt with
      | Some false => size_fallback supported map rest size
      | _ => map !! alt
      end
  end.

(** [supported] is the capability map of the asset when it has one; a mark
    is a boolean and a missing key reads as [undefined].  (The ids of the
    profiles are taken not to be among [prototype_members]: for such a name
    a plain object has an inherited member where the maps here have
    nothing.) *)
Definition size (supported : option (gmap string bool)) (s : Sizes)
  : Exn + Size :=
  match _preferredSize s with
  | None => inl TypeError
  | Some preferred =>
      let size :=
        match supported with
        | Some marks =>
            if negb (default false (marks !! size_id preferred))
            then size_fallback marks (_sizesMap s) (fallback preferred)
                   (Some preferred)
            else Some preferred
        | None => Some preferred
        end in
      match size with
      | None => inl (Thrown "Asset does not support any valid size")
      | Some size => inr size
      end
  end.

(** The id of the active profile. *)
Definition active (s : Sizes) : option string := size_id <$> _preferredSize s.

(** The test of the loop of [refresh]:
    [sizes[i].maxSize / devicePixelRatio > minSize]. *)
Definition fits (devicePixelRatio : option Q) (minSize : Q) (s : Size) : bool :=
  gt (maxSize s / pixelRatio devicePixelRatio) minSize.

(** From smallest to largest [maxSize]. *)
Definition ascending (l : list Size) : Prop :=
  StronglySorted (λ a b, (maxSize a <= maxSize b)%Q) l.

(** [AssetSizes.SIZE_TOKEN] *)
Definition SIZE_TOKEN : string := "%SIZE%".

(** [s] without its first [n] characters. *)
Fixpoint string_drop (n : nat) (s : string) : string :=
  match n, s with
  | O, _ => s
  | S n, String _ rest => string_drop n rest
  | S _, EmptyString => EmptyString
  end.

(** The search that [String.prototype.indexOf] and [String.prototype.replace]
    (with a string for its pattern) share: the first occurrence of [pat] in
    [s], given as the text before it and the text after it. *)
Fixpoint search (pat s : string) {struct s} : option (string * string) :=
  if String.prefix pat s
  then Some (EmptyString, string_drop (String.length pat) s)
  else match s with
       | EmptyString => None
       | String c rest =>
           match search pat rest with
           | Some (before, after) => Some (String c before, after)
           | None => None
           end
       end.

(** The replacement text of [String.prototype.replace] for a string pattern:
    [$$] stands for a dollar sign, [$&] for the matched text, [$`] for the
    text before the match and [$'] for the text after it; a pattern string
    has no captures, so every other character stands for itself. *)
Fixpoint substitute (matched before after rep : string) : string :=
  match rep with
  | EmptyString => EmptyString
  | String c rest =>
      if Ascii.eqb c "$"%char
      then match rest with
           | String d rest' =>
               if Ascii.eqb d "$"%char
               then String d (substitute matched before after rest')
               else if Ascii.eqb d "&"%char
               then matched +:+ substitute matched before after rest'
               else if Ascii.eqb d "`"%char
               then before +:+ substitute matched before after rest'
               else if Ascii.eqb d "'"%char
               then after +:+ substitute matched before after rest'
               else String c (substitute matched before after rest)
           | EmptyString => String c EmptyString
           end
      else String c (substitute matched before after rest)
  end.

(** [s.replace(pat, rep)] for strings [pat] and [rep]: the first occurrence
    only. *)
Definition replace (s pat rep : string) : string :=
  match search pat s with
  | Some (before, after) =>
      before +:+ substitute pat before after rep +:+ after
  | None => s
  end.

(** [size] is the size object the caller passes, if any. *)
Definition filter (url : string) (size : option Size) (s : Sizes)
  : Exn + string :=
  let size := match size with Some z => Some z | None => _preferredSize s end in
  match size with
  | None => inl TypeError
  | Some z => inr (replace url SIZE_TOKEN (size_id z))
  end.

(** [url.indexOf(AssetSizes.SIZE_TOKEN) > -1] *)
Definition test (url : string) : bool :=
  bool_decide (is_Some (search SIZE_TOKEN url)).

(** The characters of a string. *)
Fixpoint chars (s : string) : list ascii :=
  match s with
  | EmptyString => []
  | String c rest => c :: chars rest
  end.

End AssetSizes.

(** ** The dispatcher *)

Module Loader.
Import Js.

(** Modelled from the spec: a dispatch item (LoaderItem is imported by the
    Loader and is not among the sources): a pooled request record that
    carries the identifier it was started for and whether its transport is
    at work. *)
Record LoaderItem := {
  url : option string;
  loading : bool
}.

(** The fields of [this] that [cancel] touches.  Items are objects that the
    active map and the pool share, so both hold references into [heap].  The
    active map is a plain object used as a dictionary from urls to items:
    [items] holds its own properties, and reading it goes on to
    [Object.prototype] for a name it does not have (see [cancel]). *)
Record Loader := {
  items : gmap string nat;
  itemPool : list nat;
  heap : gmap nat LoaderItem
}.

Section Dispatcher.

(** [LoaderItem.prototype.clear], which aborts the request of the item. *)
Variable clear : LoaderItem → LoaderItem.

(** [item.clear()] *)
Definition item_clear (item : nat) (l : Loader) : Loader :=
  {| items := items l; itemPool := itemPool l;
     heap := alter clear item (heap l) |}.

(** [item.url] as a property key. *)
Definition url_key (item : nat) (l : Loader) : string :=
  match heap l !! item with
  | Some i => default "null" (url i)
  | None => "undefined"
  end.

Definition _putItem (item : nat) (l : Loader) : Loader :=
  let l := {| items := delete (url_key item l) (items l);
              itemPool := itemPool l; heap := heap l |} in
  let l := item_clear item l in
  {| items := items l; itemPool := itemPool l ++ [item]; heap := heap l |}.

(** [let item = this.items[url]] reads an own property or, without one, an
    inherited member of [Object.prototype]: that one is truthy and has no
    [clear], so that [item.clear()] throws a TypeError. *)
Definition cancel (url : string) (l : Loader) : Exn + bool * Loader :=
  match items l !! url with
  | Some item => inr (true, _putItem item (item_clear item l))
  | None => if inherited url then inl TypeError else inr (false, l)
  end.

End Dispatcher.

Section Pool.

(** Modelled from the spec: what [new LoaderItem()] builds (the constructor
    is not among the sources): a dispatch item that no request uses yet. *)
Variable blank : LoaderItem.

(** [itemPool.length ? itemPool.pop() : new LoaderItem()].  [pop] takes the
    last item of the pool; a new item is a new object, at an address that
    the heap does not use yet. *)
Definition _getItem (l : Loader) : nat * Loader :=
  match reverse (itemPool l) with
  | item :: rest =>
      (item,
       {| items := items l; itemPool := reverse rest; heap := heap l |})
  | [] =>
      let item := fresh (dom (heap l)) in
      (item,
       {| items := items l; itemPool := [];
          heap := <[item := blank]> (heap l) |})
  end.

End Pool.

End Loader.

(** ** Sample batches *)

Module Samples.
Import Js AssetLoad.

(** A registry with the basic loader task only. *)
Definition loaders : list TaskClass := register [] LoadTask.

Definition parallel : Options :=
  {| opt_startAll := true; opt_autoStart := true; opt_cacheAll := false;
     opt_type := None |}.

Definition serial : Options :=
  {| opt_startAll := false; opt_autoStart := true; opt_cacheAll := false;
     opt_type := None |}.

(** A completion signal that admits nothing. *)
Definition done (ref : nat) (result : JsVal) : Completion :=
  {| c_task := ref; c_result := result; c_hook := []; c_heard := [] |}.

(** A completion signal whose listeners push further descriptors. *)
Definition done_adding (ref : nat) (result : JsVal) (more : list JsVal)
  : Completion :=
  {| c_task := ref; c_result := result; c_hook := []; c_heard := more |}.

(** Two files, loaded as a list. *)
Definition two_files (build : Build) (options : Options) : Load :=
  st (setup loaders build (VArr [VStr "a.png"; VStr "b.png"] []) options
        (fresh 0)).

(** One file with an id and the cache flag, loaded on its own. *)
Definition cached_file (build : Build) (options : Options) : Load :=
  st (setup loaders build
        (VObj [("src", VStr "a.png"); ("id", VStr "a"); ("cache", VBool true)])
        options (fresh 0)).

(** Two files under keys, loaded as a map. *)
Definition two_keyed (build : Build) (options : Options) : Load :=
  st (setup loaders build
        (VObj [("a", VStr "a.png"); ("b", VStr "b.png")]) options (fresh 0)).

(** The two size profiles of the spec's example, registered largest first
    to show that [define] sorts them. *)
Definition sd_hd : AssetSizes.Sizes :=
  AssetSizes.define "sd" 100 (1 # 2) []
    (AssetSizes.define "hd" 800 1 ["sd"] AssetSizes.empty).

(** The same profiles on a viewport of 500 by 500 at pixel ratio 1, where
    "hd" is the active one. *)
Definition hd_active : AssetSizes.Sizes :=
  AssetSizes.refresh (Some 1%Q) 500 500 sd_hd.

(** What [clear] does to a dispatch item in the witness below: it closes
    the transport and forgets the request. *)
Definition forget (i : Loader.LoaderItem) : Loader.LoaderItem :=
  {| Loader.url := None; Loader.loading := false |}.

(** A dispatcher with one request in flight and one idle item in the pool. *)
Definition one_in_flight : Loader.Loader :=
  {| Loader.items := {[ "a.png" := 0 ]};
     Loader.itemPool := [1];
     Loader.heap :=
       {[ 0 := {| Loader.url := Some "a.png"; Loader.loading := true |};
          1 := {| Loader.url := None; Loader.loading := false |} ]} |}.

End Samples.

(** * Properties *)

(** ** Reasoning about method bodies *)

Module Hoare.
Import Js AssetLoad.

Lemma bind_eq {A B} (m : M A) (f : A → M B) b :
  (m ≫= f) b =
  match out (m b) with
  | inl e => mkRes (inl e) (st (m b)) (evs (m b))
  | inr a =>
      mkRes (out (f a (st (m b)))) (st (f a (st (m b))))
        (evs (m b) ++ evs (f a (st (m b))))
  end.
Proof. reflexivity. Qed.

Lemma bind_this {B} (f : Load → M B) b : (this ≫= f) b = f b b.
Proof. rewrite bind_eq. simpl. by destruct (f b b). Qed.

Lemma bind_modify {B} (g : Load → Load) (f : unit → M B) b :
  (modify g ≫= f) b = f tt (g b).
Proof. rewrite bind_eq. simpl. by destruct (f tt (g b)). Qed.

Lemma bind_ret {A B} (a : A) (f : A → M B) b : (mret a ≫= f) b = f a b.
Proof. rewrite bind_eq. simpl. by destruct (f a b). Qed.

Lemma bind_emit {B} (e : Event) (f : unit → M B) b :
  (emit e ≫= f) b =
  mkRes (out (f tt b)) (st (f tt b)) (e :: evs (f tt b)).
Proof. by rewrite bind_eq. Qed.

Section Rules.
Context (R : Load → Load → list Event → Prop) `{!Step R}.

Lemma sound_ret {A} (a : A) : sound R (mret a).
Proof. intros b. apply step_refl. Qed.

Lemma sound_raise {A} (e : Exn) : sound R (raise (A := A) e).
Proof. intros b. apply step_refl. Qed.

Lemma sound_this : sound R this.
Proof. intros b. apply step_refl. Qed.

Lemma sound_lift {A} (x : Exn + A) : sound R (lift x).
Proof. destruct x; [apply sound_raise | apply (sound_ret a)]. Qed.

Lemma sound_bind {A B} (m : M A) (f : A → M B) :
  sound R m → (∀ a, sound R (f a)) → sound R (m ≫= f).
Proof.
  intros Hm Hf b. rewrite bind_eq.
  destruct (out (m b)) as [e|a]; simpl; [apply Hm|].
  eapply step_trans; [apply Hm | apply Hf].
Qed.

Lemma sound_modify (g : Load → Load) :
  (∀ b, R b (g b) []) → sound R (modify g).
Proof. intros Hg b. apply Hg. Qed.

Lemma sound_emit (e : Event) : (∀ b, R b b [e]) → sound R (emit e).
Proof. intros He b. apply He. Qed.

End Rules.

Ltac step_goal := lazymatch goal with |- Step _ => apply _ end.

(** [sapply l] applies a rule and finds the [Step] instance it asks for. *)
Tactic Notation "sapply" constr(l) := apply l; try step_goal.

End Hoare.

(** ** The batch coordinator *)

Module Coordinator.
Import Js AssetLoad Hoare.

#[local] Arguments addTask : simpl never.
#[local] Arguments addTasks : simpl never.
#[local] Arguments nextTask : simpl never.
#[local] Arguments taskDone_store : simpl never.
#[local] Arguments taskDone_notify : simpl never.
#[local] Arguments taskDone_progress : simpl never.
#[local] Arguments taskDone_finish : simpl never.
#[local] Arguments taskDone : simpl never.
#[local] Arguments start : simpl never.
#[local] Arguments setup : simpl never.
#[local] Arguments div : simpl never.

Lemma count_running_app ts ts' :
  count_running (ts ++ ts') = count_running ts + count_running ts'.
Proof. unfold count_running. by rewrite filter_app, length_app. Qed.

Lemma count_running_cons t ts :
  count_running (t :: ts) =
  (if is_running t then 1 else 0) + count_running ts.
Proof.
  unfold count_running. rewrite filter_cons.
  destruct (is_running t); by case_decide.
Qed.

Lemma count_running_assign_id ref id ts :
  count_running (assign_id ref id ts) = count_running ts.
Proof.
  induction ts as [|t ts IH]; [done|].
  unfold assign_id in *. rewrite fmap_cons, !count_running_cons, IH.
  by destruct (task_ref t =? ref).
Qed.

Lemma length_assign_id ref id ts : length (assign_id ref id ts) = length ts.
Proof. unfold assign_id. by rewrite length_fmap. Qed.

#[global] Instance admission_step : Step admission.
Proof.
  split.
  - intros b. by split.
  - intros b1 b2 b3 e1 e2 [] []. split; try congruence; try lia.
    by apply Forall_app.
Qed.

Section Admission.
Variable taskDefs : list TaskClass.
Variable build : Build.

Lemma debug_error_sound msg : sound admission (debug_error build msg).
Proof.
  unfold debug_error. destruct build.
  - sapply sound_emit. intros b. split; try done.
    apply Forall_singleton. by eexists.
  - sapply sound_ret.
Qed.

Lemma with_pushed_sound ref cls asset :
  ∀ b, admission b (with_pushed (Task_new ref cls asset) b) [].
Proof.
  intros b. split; simpl; try done.
  - rewrite length_app. simpl. lia.
  - rewrite length_app. lia.
  - rewrite count_running_app.
    change (count_running [Task_new ref cls asset]) with 0. lia.
Qed.

Lemma addTask_sound asset : sound admission (addTask taskDefs build asset).
Proof.
  unfold addTask.
  sapply sound_bind; [sapply sound_this | intros b].
  sapply sound_bind; [sapply sound_lift | intros a].
  destruct (getTaskByAsset taskDefs a).
  - sapply sound_bind; [sapply sound_lift | intros a'].
    sapply sound_bind; [| intros _; sapply sound_ret].
    sapply sound_modify. apply with_pushed_sound.
  - sapply sound_bind; [apply debug_error_sound |].
    intros _. sapply sound_ret.
Qed.

Lemma addTasks_array_sound items m :
  sound admission (addTasks_array taskDefs build items m).
Proof.
  revert m. induction items as [|item rest IH]; intros m; simpl.
  - sapply sound_ret.
  - sapply sound_bind; [apply addTask_sound | intros [t|]].
    + apply IH.
    + sapply sound_raise.
Qed.

Lemma assign_id_sound ref id :
  ∀ b, admission b (with_tasks (assign_id ref id (tasks b)) b) [].
Proof.
  intros b. split; simpl; try done.
  - by rewrite length_assign_id.
  - by rewrite length_assign_id.
  - apply count_running_assign_id.
Qed.

Lemma addTasks_object_sound props :
  sound admission (addTasks_object taskDefs build props).
Proof.
  induction props as [|[id item] rest IH]; simpl.
  - sapply sound_ret.
  - sapply sound_bind; [apply addTask_sound | intros [t|]].
    + sapply sound_bind; [| intros _; apply IH].
      destruct (has_id t); [sapply sound_ret|].
      sapply sound_modify. apply assign_id_sound.
    + sapply sound_raise.
Qed.

Lemma addTasks_sound assets : sound admission (addTasks taskDefs build assets).
Proof.
  unfold addTasks.
  sapply sound_bind; [sapply sound_this | intros b].
  sapply sound_bind; [sapply sound_lift | intros a].
  destruct (getTaskByAsset taskDefs a).
  - sapply sound_bind; [apply addTask_sound |].
    intros _. sapply sound_ret.
  - destruct (undo_type (type b) a);
      try (sapply sound_bind; [apply debug_error_sound |];
           intros _; sapply sound_ret).
    + sapply sound_bind; [apply addTasks_object_sound |].
      intros _. sapply sound_ret.
    + apply addTasks_array_sound.
Qed.

(** *** [nextTask] *)

Lemma nextTask_from_spec all ts :
  let r := nextTask_from all ts in
  length r.1 = length ts ∧
  count_running r.1 = count_running ts + length r.2 ∧
  Forall (λ e, is_start e = true) r.2 ∧
  (all = false → length r.2 ≤ 1).
Proof.
  induction ts as [|t ts IH]; simpl.
  { repeat split; try constructor; try lia; done. }
  destruct IH as (Hlen & Hcount & Hev & Hser).
  destruct (nextTask_from all ts) as [ts' es] eqn:E. simpl in *.
  destruct (task_status t) eqn:Et.
  - destruct all; simpl.
    + rewrite !count_running_cons. unfold is_running. simpl. rewrite Et.
      repeat split; try lia; try done. by constructor.
    + rewrite !count_running_cons. unfold is_running. simpl. rewrite Et.
      repeat split; try lia. by repeat constructor.
  - simpl. rewrite !count_running_cons.
    repeat split; try lia; done.
  - simpl. rewrite !count_running_cons.
    repeat split; try lia; done.
Qed.

Lemma nextTask_dispatch b : dispatch b (st (nextTask b)) (evs (nextTask b)).
Proof.
  unfold nextTask.
  pose proof (nextTask_from_spec (startAll b) (tasks b)) as H.
  destruct (nextTask_from (startAll b) (tasks b)) as [ts es].
  simpl in *. destruct H as (? & ? & ? & ?). by split.
Qed.

Lemma nextTask_out b : out (nextTask b) = inr tt.
Proof.
  unfold nextTask. by destruct (nextTask_from (startAll b) (tasks b)).
Qed.

(** *** The parts of [taskDone] *)

Lemma taskDone_store_eq task result b :
  taskDone_store task result b =
  if truthy result
  then
    match fold_result (mode b) (results b) (task_id task) result with
    | inl e => mkRes (inl e) b []
    | inr r =>
        mkRes (inr tt) (with_results r b)
          (if task_cache task then [CacheWrite (task_id task) result] else [])
    end
  else mkRes (inr tt) b [].
Proof.
  unfold taskDone_store. destruct (truthy result); [|done].
  rewrite bind_this, bind_eq.
  destruct (fold_result _ _ _ _) as [e|r]; simpl; [done|].
  by destruct (task_cache task).
Qed.

Lemma taskDone_notify_eq task result c b :
  taskDone_notify task result c b =
  mkRes (inr (additions task c)) b (notifications task result c).
Proof.
  unfold taskDone_notify, notifications, additions.
  by destruct (task_complete task).
Qed.

Lemma taskDone_progress_eq b :
  taskDone_progress b =
  mkRes (inr tt) (with_numLoaded (S (numLoaded b)) b)
    [Progress (div (S (numLoaded b)) (total b))].
Proof. reflexivity. Qed.

Lemma taskDone_finish_eq m b :
  taskDone_finish build m b =
  if mode_eqb (mode b) MAP_MODE && negb (mode_eqb m (mode b))
  then
    match build with
    | DEBUG =>
        mkRes (inr tt) b
          [DebugError "Load assets require IDs to return mapped results"]
    | RELEASE => mkRes (inl (Thrown "Assets require IDs")) b []
    end
  else
    match tasks b with
    | [] => mkRes (inr tt) b [Complete (results b)]
    | _ :: _ => nextTask b
    end.
Proof.
  unfold taskDone_finish. rewrite bind_this.
  destruct (mode_eqb (mode b) MAP_MODE && negb (mode_eqb m (mode b))).
  - by destruct build.
  - by destruct (tasks b).
Qed.

(** A signal for a batch that is not running or for a task that is not
    pending is ignored. *)
Lemma taskDone_idle c b :
  running b = false ∨ pending b (c_task c) = None →
  taskDone taskDefs build c b = mkRes (inr tt) b [].
Proof.
  intros H. unfold taskDone. rewrite bind_this.
  destruct (running b); simpl; [|done].
  destruct H as [? | ->]; done.
Qed.

(** The handler for a pending task of a running batch, step by step. *)
Lemma taskDone_active c b index task :
  running b = true →
  pending b (c_task c) = Some (index, task) →
  let b1 := with_tasks (delete index (tasks b)) b in
  let r1 := taskDone_store task (produced c) b1 in
  let r2 := addTasks taskDefs build (VArr (additions task c) []) (st r1) in
  let b3 := with_numLoaded (S (numLoaded (st r2))) (st r2) in
  taskDone taskDefs build c b =
  match out r1 with
  | inl e => mkRes (inl e) (st r1) (evs r1)
  | inr _ =>
      match out r2 with
      | inl e =>
          mkRes (inl e) (st r2)
            (evs r1 ++ notifications task (produced c) c ++ evs r2)
      | inr m =>
          let r3 := taskDone_finish build m b3 in
          mkRes (out r3) (st r3)
            (evs r1 ++ notifications task (produced c) c ++ evs r2 ++
             Progress (div (S (numLoaded (st r2))) (total (st r2))) :: evs r3)
      end
  end.
Proof.
  intros Hrun Hpend. unfold taskDone. rewrite bind_this, Hrun. cbn [negb].
  rewrite Hpend, bind_modify. fold (produced c). cbv zeta.
  rewrite bind_eq. destruct (out (taskDone_store _ _ _)) as [e|[]]; [done|].
  rewrite bind_eq, taskDone_notify_eq. cbn [out st evs].
  rewrite bind_eq. destruct (out (addTasks _ _ _ _)) as [e|m]; [done|].
  rewrite bind_eq, taskDone_progress_eq. cbn [out st evs].
  done.
Qed.

(** *** Counters and progress *)

Lemma indexOf_lookup ts ref i :
  indexOf ts ref = Some i → ∃ t, ts !! i = Some t ∧ task_ref t = ref.
Proof.
  revert i. induction ts as [|t ts IH]; intros i; simpl; [done|].
  destruct (task_ref t =? ref) eqn:E.
  - intros [= <-]. exists t. split; [done|]. by apply Nat.eqb_eq.
  - destruct (indexOf ts ref) as [j|]; simpl; [|done].
    intros [= <-]. by apply IH.
Qed.

Lemma pending_lookup b ref i t :
  pending b ref = Some (i, t) → tasks b !! i = Some t ∧ task_ref t = ref.
Proof.
  unfold pending. destruct (indexOf (tasks b) ref) as [j|] eqn:E; [|done].
  simpl. destruct (indexOf_lookup _ _ _ E) as (t' & Ht' & Href).
  rewrite Ht'. simpl. by intros [= <- <-].
Qed.

Lemma progress_values_app es es' :
  progress_values (es ++ es') = progress_values es ++ progress_values es'.
Proof. apply omap_app. Qed.

Lemma progress_values_none es :
  Forall (λ e, ∀ p, e ≠ Progress p) es → progress_values es = [].
Proof.
  induction 1 as [|e es He _ IH]; [done|].
  destruct e; try exact IH. by destruct (He p).
Qed.

Lemma progress_values_admission b b' es :
  admission b b' es → progress_values es = [].
Proof.
  intros H. apply progress_values_none.
  eapply Forall_impl; [apply (adm_events _ _ _ H)|].
  by intros e [msg ->] p.
Qed.

Lemma progress_values_dispatch b b' es :
  dispatch b b' es → progress_values es = [].
Proof.
  intros H. apply progress_values_none.
  eapply Forall_impl; [apply (dis_events _ _ _ H)|].
  by intros [] ? ?.
Qed.

Lemma progress_values_notifications task result c :
  progress_values (notifications task result c) = [].
Proof. unfold notifications. by destruct (task_complete task). Qed.

(** What the storing step leaves alone. *)
Lemma taskDone_store_frame task result b :
  let r := taskDone_store task result b in
  tasks (st r) = tasks b ∧ numLoaded (st r) = numLoaded b ∧
  total (st r) = total b ∧ mode (st r) = mode b ∧
  running (st r) = running b ∧ startAll (st r) = startAll b ∧
  Forall (λ e, is_cache_write e = true) (evs r).
Proof.
  cbv zeta. rewrite taskDone_store_eq.
  destruct (truthy result); [|by repeat split].
  destruct (fold_result _ _ _ _); [by repeat split|].
  destruct (task_cache task); repeat split; by repeat constructor.
Qed.

(** What the end of the handler leaves alone. *)
Lemma taskDone_finish_frame m b :
  let r := taskDone_finish build m b in
  mode (st r) = mode b ∧ results (st r) = results b ∧
  running (st r) = running b ∧ numLoaded (st r) = numLoaded b ∧
  total (st r) = total b ∧ startAll (st r) = startAll b ∧
  length (tasks (st r)) = length (tasks b) ∧
  progress_values (evs r) = [].
Proof.
  cbv zeta. rewrite taskDone_finish_eq.
  destruct (mode_eqb (mode b) MAP_MODE && negb (mode_eqb m (mode b))).
  { by destruct build. }
  set (r := match tasks b with [] => _ | _ => _ end).
  assert (r = mkRes (inr tt) b [Complete (results b)] ∨ r = nextTask b)
    as [-> | ->] by (subst r; destruct (tasks b); auto); [done|].
  destruct (nextTask_dispatch b) as [].
  repeat split; try done.
  eapply progress_values_dispatch, nextTask_dispatch.
Qed.

(** One completion signal and the counters: they stay within the total, the
    total does not shrink, and the signal either counts and emits one
    progress value or does neither. *)
Lemma taskDone_counters c b :
  counters_ok b →
  let r := taskDone taskDefs build c b in
  counters_ok (st r) ∧ total b ≤ total (st r) ∧
  ((progress_values (evs r) = [] ∧ numLoaded (st r) = numLoaded b) ∨
   (progress_values (evs r) = [div (S (numLoaded b)) (total (st r))] ∧
    numLoaded (st r) = S (numLoaded b) ∧
    pending b (c_task c) ≠ None)).
Proof.
  intros Hok. cbv zeta.
  destruct (running b) eqn:Hrun;
    [|rewrite taskDone_idle by auto; repeat split; auto].
  destruct (pending b (c_task c)) as [[index task]|] eqn:Hpend;
    [|rewrite taskDone_idle by auto; repeat split; auto].
  rewrite (taskDone_active _ _ _ _ Hrun Hpend). cbv zeta.
  apply pending_lookup in Hpend as [Hlook _].
  pose proof (length_delete (tasks b) index (mk_is_Some _ _ Hlook)) as Hdel.
  pose proof (lookup_lt_Some _ _ _ Hlook) as Hlt.
  set (b1 := with_tasks (delete index (tasks b)) b).
  destruct (taskDone_store_frame task (produced c) b1)
    as (Hts & Hn & Htot & _ & _ & _ & Hev1).
  assert (progress_values (evs (taskDone_store task (produced c) b1)) = [])
    as Hpv1.
  { apply progress_values_none. eapply Forall_impl; [apply Hev1|].
    by intros [] ? ?. }
  set (r1 := taskDone_store task (produced c) b1) in *.
  destruct (out r1) as [e|[]].
  { unfold counters_ok in *. simpl. rewrite Hts, Hn, Htot. subst b1. simpl.
    repeat split; try lia. by left. }
  pose proof (addTasks_sound (VArr (additions task c) []) (st r1)) as Hadm.
  set (r2 := addTasks taskDefs build _ (st r1)) in *.
  pose proof (progress_values_admission _ _ _ Hadm) as Hpv2.
  destruct Hadm as [_ _ _ Hn2 _ _ _ Htot2 Hgrow _ _].
  rewrite Hts in Htot2, Hgrow. rewrite Hn in Hn2. rewrite Htot in Htot2.
  unfold b1 in Htot2, Hgrow, Hn2.
  cbn [tasks numLoaded total with_tasks] in Htot2, Hgrow, Hn2.
  unfold counters_ok in *.
  destruct (out r2) as [e|m]; cbn [st evs out].
  { rewrite !progress_values_app, Hpv1, Hpv2, progress_values_notifications.
    repeat split; try lia. left. by split. }
  set (b3 := with_numLoaded _ (st r2)).
  destruct (taskDone_finish_frame m b3)
    as (_ & _ & _ & Hn3 & Htot3 & _ & Hlen3 & Hpv3).
  rewrite Hn3, Htot3, Hlen3.
  rewrite !progress_values_app, Hpv1, Hpv2, progress_values_notifications.
  change (progress_values (Progress ?p :: ?es))
    with (p :: progress_values es).
  rewrite Hpv3. subst b3. cbn [numLoaded total tasks with_numLoaded].
  rewrite Hn2. repeat split; try lia. right. by repeat split.
Qed.

(** *** [start] and [setup], step by step *)

Lemma start_eq b :
  start b =
  let r := nextTask (with_running true b) in
  mkRes (out r) (st r) (Progress (Fin 0%Q) :: evs r).
Proof. unfold start. by rewrite bind_emit, bind_modify. Qed.

Lemma setup_eq assets options b :
  setup taskDefs build assets options b =
  let r := addTasks taskDefs build assets (with_options options b) in
  match out r with
  | inl e => mkRes (inl e) (st r) (evs r)
  | inr m =>
      let b2 := with_results (_getAssetsContainer m) (with_mode m (st r)) in
      if opt_autoStart options
      then
        let r' := start b2 in
        mkRes (out r') (st r') (evs r ++ evs r')
      else mkRes (inr tt) b2 (evs r ++ [])
  end.
Proof.
  unfold setup. rewrite bind_modify, bind_eq. cbv zeta.
  destruct (out (addTasks _ _ _ _)) as [e|m]; [done|].
  rewrite bind_modify, bind_modify.
  by destruct (opt_autoStart options).
Qed.

(** *** The states a batch goes through *)

Lemma count_running_delete ts i t :
  ts !! i = Some t →
  count_running (delete i ts) + (if is_running t then 1 else 0)
  = count_running ts.
Proof.
  revert i. induction ts as [|t' ts IH]; intros [|i]; simpl; try done.
  - intros [= ->]. rewrite count_running_cons. lia.
  - intros H. rewrite !count_running_cons, <- (IH _ H). lia.
Qed.

Lemma count_running_elem ts t :
  t ∈ ts → is_running t = true → 1 ≤ count_running ts.
Proof.
  induction 1 as [t ts|t t' ts _ IH]; intros Hr; rewrite count_running_cons.
  - rewrite Hr. lia.
  - specialize (IH Hr). lia.
Qed.

(** With at most one RUNNING task in the list, a RUNNING task is that one. *)
Lemma running_unique ts t t' :
  count_running ts ≤ 1 → t ∈ ts → t' ∈ ts →
  is_running t = true → is_running t' = true → t = t'.
Proof.
  induction ts as [|x ts IH]; intros Hc Ht Ht' Hr Hr'; [by inversion Ht|].
  rewrite count_running_cons in Hc.
  apply elem_of_cons in Ht as [->|Ht]; apply elem_of_cons in Ht' as [->|Ht'].
  - done.
  - pose proof (count_running_elem _ _ Ht' Hr'). rewrite Hr in Hc. lia.
  - pose proof (count_running_elem _ _ Ht Hr). rewrite Hr' in Hc. lia.
  - apply IH; try done. lia.
Qed.

Lemma is_running_status t : is_running t = true ↔ task_status t = RUNNING.
Proof. unfold is_running. by destruct (task_status t). Qed.

Lemma start_ok b :
  counters_ok b → running b = false → serial_ok b →
  counters_ok (st (start b)) ∧ serial_ok (st (start b)).
Proof.
  intros Hc Hrun [Hs0 _]. rewrite start_eq. cbv zeta. cbn [st].
  destruct (nextTask_dispatch (with_running true b)) as [].
  cbn [mode results running numLoaded total startAll tasks with_running] in *.
  unfold counters_ok, serial_ok in *. rewrite Hs0 in * by done.
  repeat split; try lia; try congruence.
  intros H. rewrite dis_startAll0 in H. specialize (dis_serial0 H). lia.
Qed.

Lemma setup_ok ref assets options :
  let b := st (setup taskDefs build assets options (fresh ref)) in
  counters_ok b ∧ serial_ok b.
Proof.
  cbv zeta. rewrite setup_eq. cbv zeta.
  pose proof (addTasks_sound assets (with_options options (fresh ref))) as Hadm.
  set (r := addTasks taskDefs build assets _) in *.
  destruct Hadm as [_ _ Hrun Hn _ _ _ Htot _ Hcount _].
  cbn [running numLoaded total tasks with_options fresh length] in *.
  change (count_running []) with 0 in Hcount.
  assert (counters_ok (st r) ∧ serial_ok (st r)) as [Hc Hs].
  { unfold counters_ok, serial_ok. rewrite Hcount. repeat split; lia. }
  destruct (out r) as [e|m]; [done|].
  set (b2 := with_results _ _).
  assert (counters_ok b2 ∧ serial_ok b2 ∧ running b2 = false)
    as (Hc2 & Hs2 & Hr2) by done.
  destruct (opt_autoStart options); [|done].
  cbn [st]. by apply start_ok.
Qed.

Lemma taskDone_ok c b :
  counters_ok b → serial_ok b → started b (c_task c) →
  serial_ok (st (taskDone taskDefs build c b)).
Proof.
  intros Hc Hs Hstarted.
  destruct (decide (running b = false)) as [Hrun|Hrun];
    [by rewrite taskDone_idle by auto|].
  apply not_false_is_true in Hrun.
  destruct (pending b (c_task c)) as [[index task]|] eqn:Hpend;
    [|by rewrite taskDone_idle by auto].
  rewrite (taskDone_active _ _ _ _ Hrun Hpend). cbv zeta.
  destruct Hs as [Hs0 Hs1].
  apply pending_lookup in Hpend as [Hlook Href].
  assert (is_running task = true) as Hrt.
  { apply is_running_status, Hstarted; [|done].
    apply list_elem_of_lookup. eauto. }
  pose proof (count_running_delete _ _ _ Hlook) as Hdel. rewrite Hrt in Hdel.
  set (b1 := with_tasks (delete index (tasks b)) b).
  destruct (taskDone_store_frame task (produced c) b1)
    as (Hts & _ & _ & _ & Hr1 & Hsa1 & _).
  set (r1 := taskDone_store task (produced c) b1) in *.
  assert (serial_ok (st r1) ∧ running (st r1) = true ∧
          startAll (st r1) = startAll b ∧
          count_running (tasks (st r1)) + 1 = count_running (tasks b))
    as (Hok1 & Hrun1 & Hsa1' & Hcount1).
  { unfold serial_ok. rewrite Hts, Hr1, Hsa1. unfold b1.
    cbn [tasks running startAll with_tasks].
    repeat split; try done; try lia; try congruence.
    intros H. specialize (Hs1 H). lia. }
  destruct (out r1) as [e|[]]; [done|].
  pose proof (addTasks_sound (VArr (additions task c) []) (st r1)) as Hadm.
  set (r2 := addTasks taskDefs build _ (st r1)) in *.
  destruct Hadm as [_ _ Hrun2 _ Hsa2 _ _ _ _ Hcount2 _].
  assert (serial_ok (st r2)) as Hok2.
  { unfold serial_ok. rewrite Hrun2, Hsa2, Hcount2. apply Hok1. }
  destruct (out r2) as [e|m]; [done|]. cbn [st].
  rewrite taskDone_finish_eq.
  set (b3 := with_numLoaded _ (st r2)).
  assert (serial_ok b3) as Hok3 by done.
  destruct (mode_eqb (mode b3) MAP_MODE && negb (mode_eqb m (mode b3))).
  { by destruct build. }
  destruct (tasks b3) eqn:E; [done|].
  destruct (nextTask_dispatch b3) as [].
  unfold serial_ok. rewrite dis_running0, dis_count0, dis_startAll0.
  unfold b3 at 1 2 3 4.
  cbn [running startAll tasks with_numLoaded].
  rewrite Hrun2, Hrun1, Hsa2, Hsa1', Hcount2.
  split; [done|]. intros H. specialize (Hs1 H).
  assert (startAll b3 = false) as H3
    by (unfold b3; cbn [startAll with_numLoaded]; congruence).
  specialize (dis_serial0 H3).
  change (tasks b3) with (tasks (st r2)). lia.
Qed.

Lemma reachable_ok b :
  reachable taskDefs build b → counters_ok b ∧ serial_ok b.
Proof.
  induction 1 as [ref|ref assets options|b Hb [Hc Hs] Hrun
                 |b c Hb [Hc Hs] Hst].
  - unfold counters_ok, serial_ok. simpl. repeat split; lia.
  - apply setup_ok.
  - by apply start_ok.
  - split; [by apply taskDone_counters | by apply taskDone_ok].
Qed.

(** *** Admission of matched descriptors *)

Lemma assoc_get_set_ne k k' x ps :
  String.eqb k k' = false → assoc_get k (assoc_set k' x ps) = assoc_get k ps.
Proof.
  intros Hne. induction ps as [|[k0 v] ps IH]; simpl.
  - by rewrite Hne.
  - destruct (String.eqb k' k0) eqn:E; simpl.
    + apply String.eqb_eq in E as ->. by rewrite Hne.
    + by rewrite IH.
Qed.

Lemma set_prop_object v k x :
  is_object v = true →
  ∃ v', set_prop v k x = inr v' ∧ is_object v' = true ∧
        ∀ k', String.eqb k' k = false → prop v' k' = prop v k'.
Proof.
  destruct v; try done; intros _; eexists; (split; [done|]);
    (split; [done|]); intros k' Hne; unfold prop; simpl;
    by rewrite assoc_get_set_ne.
Qed.

Lemma default_type_object ty v :
  is_object v = true →
  ∃ a, default_type ty v = inr a ∧ is_object a = true ∧
       prop a "id" = prop v "id" ∧ prop a "cache" = prop v "cache" ∧
       prop a "complete" = prop v "complete".
Proof.
  intros Hobj. unfold default_type.
  assert (∃ t, get_prop v "type" = inr t) as [t ->]
    by (destruct v; try done; by eexists).
  destruct t; try by (exists v).
  destruct ty as [s|]; [|by exists v].
  destruct (type_set (Some s)); [|by exists v].
  destruct (set_prop_object v "type" (VStr s) Hobj) as (v' & -> & ? & Hp).
  exists v'. repeat split; try done; by apply Hp.
Qed.

Lemma default_cache_object all v :
  is_object v = true →
  ∃ a, default_cache all v = inr a ∧ prop a "id" = prop v "id".
Proof.
  intros Hobj. unfold default_cache.
  assert (∃ t, get_prop v "cache" = inr t) as [t ->]
    by (destruct v; try done; by eexists).
  destruct t; try by (exists v).
  destruct all; [|by exists v].
  destruct (set_prop_object v "cache" (VBool true) Hobj) as (v' & -> & ? & Hp).
  exists v'. split; [done|]. by apply Hp.
Qed.

Lemma _applyDefaults_object d :
  descriptor d = true → is_object (_applyDefaults d) = true.
Proof. by destruct d. Qed.

(** A matched descriptor becomes a WAITING task at the end of the pending
    list; the task has an id exactly when the descriptor has one. *)
Lemma addTask_matched d b :
  descriptor d = true → matched taskDefs (type b) d = true →
  ∃ t, addTask taskDefs build (_applyDefaults d) b
       = mkRes (inr (Some t)) (with_pushed t b) [] ∧
       has_id t = negb (lacks_id d).
Proof.
  intros Hd Hm. unfold matched in Hm.
  destruct (default_type_object (type b) _ (_applyDefaults_object _ Hd))
    as (a & Ha & Hobj & Hid & _).
  rewrite Ha in Hm. apply bool_decide_eq_true in Hm as [cls Hcls].
  destruct (default_cache_object (cacheAll b) a Hobj) as (a' & Ha' & Hid').
  exists (Task_new (nextRef b) cls a'). split.
  - unfold addTask. rewrite bind_this, Ha. cbn [lift]. rewrite bind_ret, Hcls.
    rewrite Ha'. cbn [lift]. by rewrite bind_ret, bind_modify.
  - unfold has_id, lacks_id, Task_new. cbn [task_id].
    rewrite Hid', Hid.
    destruct (prop (_applyDefaults d) "id") as [| | | |s| | |]; try done;
      by destruct (String.eqb s "").
Qed.

(** The loop over an array of matched descriptors returns LIST_MODE as soon
    as one of them lacks an id, and leaves the container alone. *)
Lemma addTasks_array_matched items m b :
  Forall (λ d, descriptor d = true ∧ matched taskDefs (type b) d = true) items →
  out (addTasks_array taskDefs build items m b)
  = inr (if existsb lacks_id items then LIST_MODE else m).
Proof.
  revert m b. induction items as [|d items IH]; intros m b Hall; [done|].
  apply Forall_cons in Hall as [[Hd Hm] Hall].
  destruct (addTask_matched d b Hd Hm) as (t & Ht & Hid).
  cbn [addTasks_array existsb]. rewrite bind_eq, Ht. cbn [out st evs].
  rewrite IH by done. rewrite Hid.
  destruct (lacks_id d); cbn [negb orb]; [|done].
  by destruct (existsb lacks_id items).
Qed.

(** An unmatched descriptor is reported (in the debug build) and leaves the
    batch as it was; [addTask] returns [undefined]. *)
Lemma addTask_unmatched d b :
  descriptor d = true → matched taskDefs (type b) d = false →
  ∃ es, addTask taskDefs build (_applyDefaults d) b = mkRes (inr None) b es.
Proof.
  intros Hd Hm. unfold matched in Hm.
  destruct (default_type_object (type b) _ (_applyDefaults_object _ Hd))
    as (a & Ha & _).
  rewrite Ha in Hm. apply bool_decide_eq_false in Hm.
  unfold addTask. rewrite bind_this, Ha. cbn [lift]. rewrite bind_ret.
  destruct (getTaskByAsset taskDefs a) as [cls|]; [by destruct Hm|].
  unfold debug_error. destruct build; by eexists.
Qed.

(** The loop over an array stops with a TypeError at the first unmatched
    member: the members before it are pending, those after it are never
    looked at. *)
Lemma addTasks_array_unmatched pre d post m b :
  Forall (λ d, descriptor d = true ∧ matched taskDefs (type b) d = true) pre →
  descriptor d = true → matched taskDefs (type b) d = false →
  let r := addTasks_array taskDefs build (pre ++ d :: post) m b in
  out r = inl TypeError ∧
  length (tasks (st r)) = length (tasks b) + length pre ∧
  total (st r) = total b + length pre.
Proof.
  revert m b. induction pre as [|x pre IH]; intros m b Hall Hd Hm; cbv zeta.
  - destruct (addTask_unmatched d b Hd Hm) as [es Hes].
    cbn [app addTasks_array]. rewrite bind_eq, Hes. cbn [out st evs length].
    unfold raise. cbn [out st]. repeat split; lia.
  - apply Forall_cons in Hall as [[Hx Hmx] Hall].
    destruct (addTask_matched x b Hx Hmx) as (t & Ht & _).
    cbn [app addTasks_array]. rewrite bind_eq, Ht. cbn [out st evs].
    destruct (IH (if has_id t then m else LIST_MODE) (with_pushed t b))
      as (-> & -> & ->); try done.
    cbn [tasks total with_pushed length]. rewrite length_app. cbn [length].
    repeat split; lia.
Qed.

(** An array that the registry does not take for a descriptor itself is
    admitted member by member. *)
Lemma addTasks_array_eq items props b :
  matched taskDefs (type b) (VArr items props) = false →
  addTasks taskDefs build (VArr items props) b
  = addTasks_array taskDefs build items MAP_MODE b.
Proof.
  intros Hm. unfold matched in Hm. cbn [_applyDefaults] in Hm.
  unfold addTasks. rewrite bind_this. cbn [_applyDefaults].
  assert (∃ ps, default_type (type b) (VArr items props)
                = inr (VArr items ps)) as [ps Hty].
  { unfold default_type, get_prop.
    destruct (default VUndefined (assoc_get "type" props)); try by eexists.
    destruct (type b) as [s|]; [|by eexists].
    destruct (type_set (Some s)); by eexists. }
  rewrite Hty in *. cbn [lift]. rewrite bind_ret.
  destruct (getTaskByAsset taskDefs (VArr items ps)); [done|].
  assert (∃ ps', undo_type (type b) (VArr items ps) = VArr items ps')
    as [ps' ->]; [|done].
  unfold undo_type, get_prop.
  destruct (default VUndefined (assoc_get "type" ps)); try by eexists.
  destruct (type b) as [s'|]; [|by eexists].
  destruct (String.eqb s s' && type_set (Some s')); by eexists.
Qed.

(** *** The container *)

(** After the storing step nothing in the handler touches the mode or the
    container. *)
Lemma taskDone_container c b index task :
  running b = true → pending b (c_task c) = Some (index, task) →
  let r1 := taskDone_store task (produced c)
              (with_tasks (delete index (tasks b)) b) in
  mode (st (taskDone taskDefs build c b)) = mode b ∧
  results (st (taskDone taskDefs build c b)) = results (st r1).
Proof.
  intros Hrun Hpend. cbv zeta.
  rewrite (taskDone_active _ _ _ _ Hrun Hpend). cbv zeta.
  set (b1 := with_tasks (delete index (tasks b)) b).
  destruct (taskDone_store_frame task (produced c) b1)
    as (_ & _ & _ & Hmode & _).
  set (r1 := taskDone_store task (produced c) b1) in *.
  destruct (out r1) as [e|[]]; [done|].
  pose proof (addTasks_sound (VArr (additions task c) []) (st r1)) as Hadm.
  set (r2 := addTasks taskDefs build _ (st r1)) in *.
  destruct Hadm as [Hmode2 Hres2 _ _ _ _ _ _ _ _ _].
  destruct (out r2) as [e|m]; cbn [st]; [by rewrite Hmode2, Hres2|].
  destruct (taskDone_finish_frame m (with_numLoaded (S (numLoaded (st r2))) (st r2)))
    as (-> & -> & _).
  cbn [mode results with_numLoaded]. by rewrite Hmode2, Hres2.
Qed.

(** In LIST_MODE the container grows at its end, by the results of the
    signals in the order in which they arrive. *)
Lemma taskDone_list_container c b rs ps :
  mode b = LIST_MODE → results b = VArr rs ps →
  mode (st (taskDone taskDefs build c b)) = LIST_MODE ∧
  results (st (taskDone taskDefs build c b)) = VArr (rs ++ stores b c) ps.
Proof.
  intros Hmode Hres. unfold stores.
  destruct (running b) eqn:Hrun; cycle 1.
  { rewrite taskDone_idle by auto. cbn [andb st]. by rewrite app_nil_r. }
  destruct (pending b (c_task c)) as [[index task]|] eqn:Hpend; cycle 1.
  { rewrite taskDone_idle by auto. cbn [andb st].
    rewrite bool_decide_eq_false_2 by (by intros [? ?]).
    cbn [andb]. by rewrite app_nil_r. }
  destruct (taskDone_container c b index task Hrun Hpend) as [-> ->].
  split; [done|]. rewrite taskDone_store_eq.
  rewrite bool_decide_eq_true_2 by by eexists. cbn [andb].
  assert (truthy (produced c) = truthy (c_result c)) as Htr.
  { unfold produced. by destruct (truthy (c_result c)) eqn:E. }
  rewrite Htr. destruct (truthy (c_result c)) eqn:Htruthy.
  - assert (produced c = c_result c) as ->
      by (unfold produced; by rewrite Htruthy).
    cbn [mode results with_tasks]. by rewrite Hmode, Hres.
  - cbn [st results with_tasks]. by rewrite app_nil_r.
Qed.

Lemma run_list_container cs b rs ps :
  mode b = LIST_MODE → results b = VArr rs ps →
  mode (run taskDefs build cs b).1 = LIST_MODE ∧
  results (run taskDefs build cs b).1
  = VArr (rs ++ stored taskDefs build cs b) ps.
Proof.
  revert b rs. induction cs as [|c cs IH]; intros b rs Hmode Hres.
  { cbn [run stored fst]. by rewrite app_nil_r. }
  destruct (taskDone_list_container c b rs ps Hmode Hres) as [Hmode' Hres'].
  destruct (IH _ _ Hmode' Hres') as [Hm Hr].
  cbn [run stored].
  destruct (run taskDefs build cs (st (taskDone taskDefs build c b)))
    as [b' es]. cbn [fst] in *.
  by rewrite Hm, Hr, app_assoc.
Qed.

(** *** Progress along a run *)

Lemma run_cons c cs b :
  run taskDefs build (c :: cs) b =
  let r := taskDone taskDefs build c b in
  ((run taskDefs build cs (st r)).1, evs r ++ (run taskDefs build cs (st r)).2).
Proof.
  cbn [run]. by destruct (run taskDefs build cs _).
Qed.

Lemma run_counters cs b :
  counters_ok b →
  counters_ok (run taskDefs build cs b).1 ∧
  total b ≤ total (run taskDefs build cs b).1.
Proof.
  revert b. induction cs as [|c cs IH]; intros b Hok; [by split|].
  rewrite run_cons. cbv zeta. cbn [fst].
  destruct (taskDone_counters c b Hok) as (Hok' & Hle & _).
  destruct (IH _ Hok') as [? ?]. split; [done|lia].
Qed.

Lemma div_mono n n' d : 1 ≤ n → n ≤ n' → Num_le (div n d) (div n' d).
Proof.
  intros H1 Hle. unfold div.
  destruct d as [|d]; [destruct n, n'; try lia; done|].
  destruct n; [lia|]. destruct n'; [lia|].
  unfold Num_le, Qle. cbn [Qnum Qden]. nia.
Qed.

Lemma div_one n d : is_one (div n d) → n = d.
Proof.
  unfold div. destruct d as [|d]; [by destruct n|].
  destruct n; unfold is_one, Qeq; cbn [Qnum Qden];
    rewrite <- (positive_nat_Z (Pos.of_nat (S d))), Nat2Pos.id by done; lia.
Qed.

(** Along a run in which the total stays what it was, the progress values
    are the counts of loaded tasks over that total, each above the last. *)
Lemma run_progress cs b :
  counters_ok b →
  total (run taskDefs build cs b).1 = total b →
  ∃ ns, progress_values (run taskDefs build cs b).2
        = (λ n, div n (total b)) <$> ns ∧
        StronglySorted lt ns ∧ Forall (λ n, numLoaded b < n) ns.
Proof.
  revert b. induction cs as [|c cs IH]; intros b Hok Htot.
  { exists []. repeat split; constructor. }
  rewrite run_cons in *. cbv zeta in *. cbn [fst snd] in *.
  destruct (taskDone_counters c b Hok) as (Hok' & Hle & Hcase).
  destruct (run_counters cs _ Hok') as [_ Hle'].
  assert (total (st (taskDone taskDefs build c b)) = total b) as Heq by lia.
  destruct (IH _ Hok') as (ns & Hpv & Hsort & Hall); [lia|].
  rewrite progress_values_app, Hpv, Heq.
  destruct Hcase as [[-> Hn]|(-> & Hn & _)].
  - exists ns. rewrite Hn in Hall. by repeat split.
  - exists (S (numLoaded b) :: ns). rewrite Hn in Hall. rewrite Heq.
    repeat split; [by constructor|].
    constructor; [lia|]. eapply Forall_impl; [apply Hall|]. simpl. lia.
Qed.

Lemma progress_sorted ns d :
  StronglySorted lt ns → Forall (λ n, 1 ≤ n) ns →
  StronglySorted Num_le ((λ n, div n d) <$> ns).
Proof.
  induction 1 as [|n ns Hs IH Hn]; intros Hall; [constructor|].
  apply Forall_cons in Hall as [H1 Hall]. rewrite fmap_cons.
  constructor; [by apply IH|].
  apply Forall_fmap. eapply Forall_impl; [apply Hn|].
  intros n' Hlt. apply div_mono; lia.
Qed.

Lemma progress_values_elem p es : Progress p ∈ es → p ∈ progress_values es.
Proof.
  intros H. unfold progress_values. apply list_elem_of_omap.
  by exists (Progress p).
Qed.

End Admission.

(** C1, as amended.  Progress is [numLoaded / total] with the total taken
    after the admission of further descriptors, so it can fall when a
    completed task admits more work.  What holds of every batch state [b] the
    coordinator reaches: along any run of completion signals that leaves the
    total as it was (no further task admitted), the progress values are
    non-decreasing; and a completion signal whose progress value is 1.0
    leaves the pending task list empty. *)
Theorem progress_amended taskDefs build b :
  reachable taskDefs build b →
  (∀ cs, total (run taskDefs build cs b).1 = total b →
     StronglySorted Num_le (progress_values (run taskDefs build cs b).2)) ∧
  (∀ c p, Progress p ∈ evs (taskDone taskDefs build c b) → is_one p →
     tasks (st (taskDone taskDefs build c b)) = []).
Proof.
  intros Hb. destruct (reachable_ok _ _ _ Hb) as [Hok _]. split.
  - intros cs Htot.
    destruct (run_progress taskDefs build cs b Hok Htot) as (ns & -> & Hs & Hall).
    apply progress_sorted; [done|].
    eapply Forall_impl; [apply Hall|]. simpl. lia.
  - intros c p Hp Hone. apply progress_values_elem in Hp.
    destruct (taskDone_counters taskDefs build c b Hok) as (Hok' & _ & Hcase).
    destruct Hcase as [[Hnil _]|(Hpv & Hn & _)].
    { rewrite Hnil in Hp. by apply elem_of_nil in Hp. }
    rewrite Hpv in Hp. apply list_elem_of_singleton in Hp as ->.
    apply div_one in Hone. unfold counters_ok in Hok'.
    apply nil_length_inv. lia.
Qed.

(** C2, as amended.  While the mode is MAP_MODE, when the descriptors that a
    completed task admits are all matched and one of them lacks an id, the
    batch does not become a list: the mode stays MAP_MODE and the container
    is the map it was, with the result of the completed task stored under
    its id.  The release build throws 'Assets require IDs'; the debug build
    reports the violation through [Debug.error] and returns.  In both
    builds the handler starts no task and does not emit [complete]. *)
Theorem map_shape_violation taskDefs build b c index task props :
  running b = true → mode b = MAP_MODE → results b = VObj props →
  pending b (c_task c) = Some (index, task) →
  matched taskDefs (type b) (VArr (additions task c) []) = false →
  Forall (λ d, descriptor d = true ∧ matched taskDefs (type b) d = true)
    (additions task c) →
  existsb lacks_id (additions task c) = true →
  let r := taskDone taskDefs build c b in
  mode (st r) = MAP_MODE ∧
  results (st r) =
    (if truthy (c_result c)
     then VObj (assoc_set (default "null" (task_id task)) (c_result c) props)
     else VObj props) ∧
  out r = match build with
          | DEBUG => inr tt
          | RELEASE => inl (Thrown "Assets require IDs")
          end ∧
  (build = DEBUG →
   DebugError "Load assets require IDs to return mapped results" ∈ evs r) ∧
  Forall (λ e, is_start e = false ∧ ∀ x, e ≠ Complete x) (evs r).
Proof.
  intros Hrun Hmode Hres Hpend Harr Hall Hlack. cbv zeta.
  destruct (taskDone_container taskDefs build c b index task Hrun Hpend)
    as [Hm Hr].
  rewrite Hm, Hr, Hmode. clear Hm Hr.
  rewrite (taskDone_active _ _ _ _ _ _ Hrun Hpend). cbv zeta.
  set (b1 := with_tasks (delete index (tasks b)) b).
  assert (truthy (produced c) = truthy (c_result c)) as Htr.
  { unfold produced. by destruct (truthy (c_result c)) eqn:E. }
  assert (∃ r1, taskDone_store task (produced c) b1 = r1 ∧
                out r1 = inr tt ∧ type (st r1) = type b ∧
                mode (st r1) = MAP_MODE ∧
                results (st r1) =
                  (if truthy (c_result c)
                   then VObj (assoc_set (default "null" (task_id task))
                                (c_result c) props)
                   else VObj props) ∧
                Forall (λ e, is_start e = false ∧ ∀ x, e ≠ Complete x) (evs r1))
    as (r1 & -> & Hout1 & Hty1 & Hmode1 & Hres1 & Hev1).
  { eexists. split; [done|]. rewrite taskDone_store_eq, Htr.
    unfold produced. destruct (truthy (c_result c)); [|by repeat split].
    unfold b1. cbn [mode results with_tasks]. rewrite Hmode, Hres.
    cbn [fold_result set_prop out st evs type results mode with_results].
    repeat split; try done. by destruct (task_cache task); repeat constructor. }
  rewrite Hout1.
  rewrite addTasks_array_eq by (by rewrite Hty1).
  pose proof (addTasks_array_matched taskDefs build (additions task c)
                MAP_MODE (st r1)) as Hout2.
  rewrite Hty1, Hlack in Hout2. specialize (Hout2 Hall).
  pose proof (addTasks_array_sound taskDefs build (additions task c)
                MAP_MODE (st r1)) as Hadm.
  set (r2 := addTasks_array taskDefs build _ _ (st r1)) in *.
  rewrite Hout2. destruct Hadm as [Hmode2 Hres2 _ _ _ _ _ _ _ _ Hev2].
  rewrite taskDone_finish_eq. cbn [mode with_numLoaded].
  rewrite Hmode2, Hmode1. cbn [mode_eqb andb negb].
  assert (Forall (λ e, is_start e = false ∧ ∀ x, e ≠ Complete x)
            (evs r1 ++ notifications task (produced c) c ++ evs r2)) as Hev.
  { apply Forall_app. split; [done|]. apply Forall_app. split.
    - unfold notifications. destruct (task_complete task); by repeat constructor.
    - eapply Forall_impl; [apply Hev2|]. by intros e [msg ->]. }
  destruct build; cbn [out st evs results].
  - repeat split; try done.
    + intros _. rewrite !elem_of_app, elem_of_cons, elem_of_cons.
      do 4 right. by left.
    + rewrite !app_assoc. apply Forall_app. split; [by rewrite <- app_assoc|].
      by repeat constructor.
  - repeat split; try done.
    rewrite !app_assoc. apply Forall_app. split; [by rewrite <- app_assoc|].
    by repeat constructor.
Qed.

(** The amended C2 at two keyed files: the first arrives and a listener
    pushes one path without an id. *)
Lemma map_shape_violation_witness :
  let r := taskDone Samples.loaders RELEASE
             (Samples.done_adding 0 (VStr "A") [VStr "c.png"])
             (Samples.two_keyed RELEASE Samples.parallel) in
  mode (st r) = MAP_MODE ∧
  results (st r) = VObj [("a", VStr "A")] ∧
  out r = inl (Thrown "Assets require IDs").
Proof.
  destruct (map_shape_violation Samples.loaders RELEASE
              (Samples.two_keyed RELEASE Samples.parallel)
              (Samples.done_adding 0 (VStr "A") [VStr "c.png"])
              0
              {| task_ref := 0; task_class := "LoadTask";
                 task_status := RUNNING; task_id := Some "a";
                 task_cache := false; task_complete := false;
                 task_original := VObj [("src", VStr "a.png")] |}
              [] eq_refl eq_refl eq_refl eq_refl eq_refl)
    as (Hmode & Hres & Hout & _).
  - repeat constructor.
  - reflexivity.
  - cbv zeta. split; [exact Hmode|]. split; [exact Hres | exact Hout].
Defined.

(** C2 as stated fails in the debug build: the handler returns normally,
    after it has reported the violation and with the task without an id
    among the pending ones. *)
Lemma map_shape_violation_debug_returns :
  let r := taskDone Samples.loaders DEBUG
             (Samples.done_adding 0 (VStr "A") [VStr "c.png"])
             (Samples.two_keyed DEBUG Samples.parallel) in
  out r = inr tt ∧
  task_id <$> tasks (st r) = [Some "b"; None] ∧
  total (st r) = 3.
Proof. by vm_compute. Qed.

(** C3 fails on the code.  With the registry filled by appending, the basic
    loader task first and the colour/alpha task after it, a descriptor that
    both accept resolves to the loader task: the scan starts at index 0, so
    the earliest registration wins. *)
Lemma getTaskByAsset_first_registered :
  let taskDefs := register (register [] LoadTask) ColorAlphaTask in
  let asset := VObj [("src", VStr "a.png"); ("color", VStr "c.jpg");
                     ("alpha", VStr "a.png")] in
  test LoadTask asset = true ∧ test ColorAlphaTask asset = true ∧
  cname <$> getTaskByAsset taskDefs asset = Some "LoadTask".
Proof. by vm_compute. Qed.

(** What [getTaskByAsset] computes in general: the first class, in the order
    of the registry, whose [test] accepts. *)
Lemma getTaskByAsset_first taskDefs asset :
  getTaskByAsset taskDefs asset
  = head (filter (λ cls, test cls asset = true) taskDefs).
Proof.
  induction taskDefs as [|cls rest IH]; [done|].
  cbn [getTaskByAsset]. rewrite filter_cons.
  destruct (test cls asset); by case_decide.
Qed.

(** With two classes appended one after the other to a registry in which
    nothing accepts the descriptor, the one appended first is selected
    whenever it accepts, whatever the later one says. *)
Lemma getTaskByAsset_register_twice taskDefs first second asset :
  Forall (λ cls, test cls asset = false) taskDefs →
  test first asset = true →
  getTaskByAsset (register (register taskDefs first) second) asset
  = Some first.
Proof.
  intros Hnone Hfirst. unfold register. rewrite <- app_assoc.
  induction Hnone as [|cls rest Hcls _ IH]; cbn [app getTaskByAsset].
  - by rewrite Hfirst.
  - by rewrite Hcls.
Qed.

(** C4 fails on the code.  An array whose first member no class matches and
    whose second member is a plain path: [addTask] returns [undefined] for
    the first, [task.id] throws a TypeError, and the path is never admitted.
    The same happens under the keys of an object. *)
Lemma unmatched_descriptor_throws build :
  let unknown := VObj [("foo", VNum 1)] in
  let r := setup Samples.loaders build (VArr [unknown; VStr "a.png"] [])
             Samples.parallel (fresh 0) in
  let r' := setup Samples.loaders build
              (VObj [("x", unknown); ("y", VStr "a.png")])
              Samples.parallel (fresh 0) in
  matched Samples.loaders None unknown = false ∧
  matched Samples.loaders None (VStr "a.png") = true ∧
  out r = inl TypeError ∧ tasks (st r) = [] ∧ total (st r) = 0 ∧
  out r' = inl TypeError ∧ tasks (st r') = [] ∧ total (st r') = 0.
Proof. by destruct build; vm_compute. Qed.

(** C5, as amended.  For a batch whose input is an array that the registry
    does not take for a descriptor itself and whose members are all matched:
    [setup] leaves LIST_MODE and an empty array when at least one member
    lacks an id, and MAP_MODE and an empty object when every member has one
    (the empty array included); and in a running batch in LIST_MODE a
    completion signal with a non-empty result for a pending task appends
    that result to the end of the container, so that along a run the
    container is the list of the stored results in the order in which the
    completion signals arrived. *)
Theorem array_container taskDefs build ref items props options :
  matched taskDefs (opt_type options) (VArr items props) = false →
  Forall (λ d, descriptor d = true ∧
               matched taskDefs (opt_type options) d = true) items →
  let b := st (setup taskDefs build (VArr items props) options (fresh ref)) in
  mode b = (if existsb lacks_id items then LIST_MODE else MAP_MODE) ∧
  results b = (if existsb lacks_id items then VArr [] [] else VObj []) ∧
  (∀ b' c index task rs ps,
     running b' = true → mode b' = LIST_MODE → results b' = VArr rs ps →
     pending b' (c_task c) = Some (index, task) →
     truthy (c_result c) = true →
     mode (st (taskDone taskDefs build c b')) = LIST_MODE ∧
     results (st (taskDone taskDefs build c b'))
     = VArr (rs ++ [c_result c]) ps) ∧
  (∀ b' cs rs ps,
     mode b' = LIST_MODE → results b' = VArr rs ps →
     results (run taskDefs build cs b').1
     = VArr (rs ++ stored taskDefs build cs b') ps).
Proof.
  intros Harr Hall. cbv zeta. split; [|split; [|split]]; cycle 3.
  { intros b' cs rs ps Hmode Hres. by apply run_list_container. }
  - rewrite setup_eq. cbv zeta.
    rewrite addTasks_array_eq by done.
    rewrite addTasks_array_matched by done.
    destruct (opt_autoStart options); [|done].
    rewrite start_eq. cbv zeta. cbn [st].
    destruct (nextTask_dispatch
                (with_running true
                   (with_results
                      (_getAssetsContainer
                         (if existsb lacks_id items then LIST_MODE else MAP_MODE))
                      (with_mode
                         (if existsb lacks_id items then LIST_MODE else MAP_MODE)
                         (st (addTasks_array taskDefs build items MAP_MODE
                                (with_options options (fresh ref)))))))) as [].
    by rewrite dis_mode0.
  - rewrite setup_eq. cbv zeta.
    rewrite addTasks_array_eq by done.
    rewrite addTasks_array_matched by done.
    assert (_getAssetsContainer
              (if existsb lacks_id items then LIST_MODE else MAP_MODE)
            = if existsb lacks_id items then VArr [] [] else VObj []) as Hc
      by (by destruct (existsb lacks_id items)).
    destruct (opt_autoStart options); [|by rewrite <- Hc].
    rewrite start_eq. cbv zeta. cbn [st].
    destruct (nextTask_dispatch
                (with_running true
                   (with_results
                      (_getAssetsContainer
                         (if existsb lacks_id items then LIST_MODE else MAP_MODE))
                      (with_mode
                         (if existsb lacks_id items then LIST_MODE else MAP_MODE)
                         (st (addTasks_array taskDefs build items MAP_MODE
                                (with_options options (fresh ref)))))))) as [].
    by rewrite dis_results0, <- Hc.
  - intros b' c index task rs ps Hrun Hmode Hres Hpend Htruthy.
    destruct (taskDone_container taskDefs build c b' index task Hrun Hpend)
      as [-> ->].
    split; [done|]. rewrite taskDone_store_eq.
    assert (produced c = c_result c) as ->
      by (unfold produced; by rewrite Htruthy).
    rewrite Htruthy. cbn [mode results with_tasks]. by rewrite Hmode, Hres.
Qed.

(** The amended C5 at two paths: the batch is a list, and the file that
    arrives first comes first in the container. *)
Lemma array_container_witness :
  let b := Samples.two_files DEBUG Samples.parallel in
  mode b = LIST_MODE ∧ results b = VArr [] [] ∧
  results (st (taskDone Samples.loaders DEBUG (Samples.done 1 (VStr "B")) b))
  = VArr [VStr "B"] [].
Proof.
  destruct (array_container Samples.loaders DEBUG 0
              [VStr "a.png"; VStr "b.png"] [] Samples.parallel eq_refl)
    as (Hmode & Hres & Hstep & _).
  - repeat constructor.
  - cbv zeta. split; [exact Hmode|]. split; [exact Hres|].
    refine (proj2 (Hstep (Samples.two_files DEBUG Samples.parallel)
                     (Samples.done 1 (VStr "B")) 1
                     {| task_ref := 1; task_class := "LoadTask";
                        task_status := RUNNING; task_id := None;
                        task_cache := false; task_complete := false;
                        task_original := VObj [("src", VStr "b.png")] |}
                     [] [] eq_refl eq_refl eq_refl eq_refl eq_refl)).
Defined.

(** C5 as stated fails: an array whose only member has an id gives a batch
    in MAP_MODE with an empty object for its container, and the result is
    stored under the id. *)
Lemma array_with_ids_is_map :
  let b := st (setup Samples.loaders DEBUG
                 (VArr [VObj [("src", VStr "a.png"); ("id", VStr "a")]] [])
                 Samples.parallel (fresh 0)) in
  mode b = MAP_MODE ∧ results b = VObj [] ∧
  results (st (taskDone Samples.loaders DEBUG (Samples.done 0 (VStr "A")) b))
  = VObj [("a", VStr "A")].
Proof. by vm_compute. Qed.

(** C6.  In [taskDone], for a batch whose container fits its mode: the cache
    of the manager is written exactly when the batch is running, the task is
    pending, its result is non-empty and its cache flag is set; the write is
    then the first thing the handler does to the outside, before the
    completion hook, the [taskDone] event (which follows in every handled
    signal) and everything after it; and there is no other write. *)
Theorem cache_write_first taskDefs build b c :
  container_ok b = true →
  ∃ rest,
    evs (taskDone taskDefs build c b) =
    match pending b (c_task c) with
    | Some (_, task) =>
        if running b && truthy (c_result c) && task_cache task
        then [CacheWrite (task_id task) (c_result c)]
        else []
    | None => []
    end ++ rest ∧
    Forall (λ e, is_cache_write e = false) rest ∧
    (∀ index task, running b = true →
       pending b (c_task c) = Some (index, task) →
       ∃ assets, TaskDone (produced c) (task_original task) assets ∈ rest).
Proof.
  intros Hok.
  destruct (running b) eqn:Hrun; cycle 1.
  { rewrite taskDone_idle by auto. exists [].
    destruct (pending b (c_task c)) as [[? ?]|]; by repeat split. }
  destruct (pending b (c_task c)) as [[index task]|] eqn:Hpend; cycle 1.
  { rewrite taskDone_idle by auto. exists []. by repeat split. }
  rewrite (taskDone_active _ _ _ _ _ _ Hrun Hpend). cbv zeta.
  set (b1 := with_tasks (delete index (tasks b)) b).
  rewrite taskDone_store_eq.
  assert (truthy (produced c) = truthy (c_result c)) as Htr.
  { unfold produced. by destruct (truthy (c_result c)) eqn:E. }
  rewrite Htr. cbn [andb].
  assert (Forall (λ e, is_cache_write e = false)
            (notifications task (produced c) c)) as Hnote.
  { unfold notifications. destruct (task_complete task); by repeat constructor. }
  assert (∀ s es, admission s (st (addTasks taskDefs build
                                      (VArr (additions task c) []) s)) es →
          Forall (λ e, is_cache_write e = false) es) as Hadm.
  { intros s es [_ _ _ _ _ _ _ _ _ _ H]. eapply Forall_impl; [apply H|].
    by intros e [msg ->]. }
  assert (∀ m s, Forall (λ e, is_cache_write e = false)
                   (evs (taskDone_finish build m s))) as Hfin.
  { intros m s. rewrite taskDone_finish_eq.
    destruct (mode_eqb (mode s) MAP_MODE && negb (mode_eqb m (mode s))).
    { destruct build; by repeat constructor. }
    destruct (tasks s); [by repeat constructor|].
    destruct (nextTask_dispatch s) as [].
    eapply Forall_impl; [apply dis_events0|]. by intros []. }
  assert (∃ assets, TaskDone (produced c) (task_original task) assets
                    ∈ notifications task (produced c) c) as [assets Hdone].
  { eexists. unfold notifications. apply elem_of_app. right.
    apply elem_of_cons. by left. }
  destruct (truthy (c_result c)) eqn:Htruthy; cycle 1.
  - (* no result: nothing is stored *)
    cbn [out st evs app].
    pose proof (addTasks_sound taskDefs build (VArr (additions task c) []) b1)
      as Hsound.
    specialize (Hadm _ _ Hsound).
    destruct (out (addTasks _ _ _ b1)) as [e|m]; eexists; (split; [done|]).
    + split; [by apply Forall_app|].
      intros ?? _ [= <- <-]. exists assets. apply elem_of_app. by left.
    + split.
      * apply Forall_app. split; [done|]. apply Forall_app. split; [done|].
        constructor; [done|apply Hfin].
      * intros ?? _ [= <- <-]. exists assets. apply elem_of_app. by left.
  - (* a result: it is stored, then written to the cache if asked *)
    assert (∃ r, fold_result (mode b1) (results b1) (task_id task) (produced c)
                 = inr r) as [r ->].
    { unfold container_ok in Hok. unfold b1. cbn [mode results with_tasks].
      unfold fold_result, push, set_prop.
      destruct (mode b), (results b); try done; by eexists. }
    cbn [out st evs].
    assert (produced c = c_result c) as Hprod
      by (unfold produced; by rewrite Htruthy).
    rewrite Hprod in *.
    set (b2 := with_results r b1).
    pose proof (addTasks_sound taskDefs build (VArr (additions task c) []) b2)
      as Hsound.
    specialize (Hadm _ _ Hsound).
    destruct (out (addTasks _ _ _ b2)) as [e|m]; eexists; (split; [done|]).
    + split; [by apply Forall_app|].
      intros ?? _ [= <- <-]. exists assets. apply elem_of_app. by left.
    + split.
      * apply Forall_app. split; [done|]. apply Forall_app. split; [done|].
        constructor; [done|apply Hfin].
      * intros ?? _ [= <- <-]. exists assets. apply elem_of_app. by left.
Qed.

(** C6 at a batch of one file with the cache flag, when the file arrives. *)
Lemma cache_write_first_witness :
  ∃ rest,
    evs (taskDone Samples.loaders DEBUG (Samples.done 0 (VStr "A"))
           (Samples.cached_file DEBUG Samples.parallel))
    = [CacheWrite (Some "a") (VStr "A")] ++ rest ∧
    Forall (λ e, is_cache_write e = false) rest.
Proof.
  destruct (cache_write_first Samples.loaders DEBUG
              (Samples.cached_file DEBUG Samples.parallel)
              (Samples.done 0 (VStr "A")) eq_refl) as (rest & Hevs & Hrest & _).
  exists rest. split; [exact Hevs | exact Hrest].
Defined.

(** C7.  In a serial batch ([startAll] false) every pass of [nextTask]
    starts at most one task and stops; in every state the batch reaches at
    most one pending task is RUNNING; and when the handler of a completion
    signal starts a task, the signalling task was pending and was the only
    RUNNING one, so no task is started before the previous one has
    completed. *)
Theorem serial_one_at_a_time taskDefs build b :
  reachable taskDefs build b → startAll b = false →
  (length (evs (nextTask b)) ≤ 1 ∧
   Forall (λ e, is_start e = true) (evs (nextTask b)) ∧
   count_running (tasks (st (nextTask b)))
   = count_running (tasks b) + length (evs (nextTask b))) ∧
  count_running (tasks b) ≤ 1 ∧
  (∀ c ref, started b (c_task c) →
     TaskStart ref ∈ evs (taskDone taskDefs build c b) →
     pending b (c_task c) ≠ None ∧
     ∀ t, t ∈ tasks b → task_status t = RUNNING → task_ref t = c_task c).
Proof.
  intros Hb Hserial. destruct (reachable_ok _ _ _ Hb) as [_ [_ Hone]].
  specialize (Hone Hserial).
  destruct (nextTask_dispatch b) as [].
  split; [by repeat split; try apply dis_serial0|]. split; [done|].
  intros c ref Hstarted Hstart. split.
  - intros Hnone. rewrite taskDone_idle in Hstart by auto.
    by apply elem_of_nil in Hstart.
  - intros t Ht Hrun.
    destruct (pending b (c_task c)) as [[index task]|] eqn:Hpend.
    + apply pending_lookup in Hpend as [Hlook Href].
      assert (task ∈ tasks b) as Htask by (apply list_elem_of_lookup; eauto).
      rewrite <- Href. f_equal.
      apply (running_unique (tasks b)); try done.
      * by apply is_running_status.
      * by apply is_running_status, Hstarted.
    + rewrite taskDone_idle in Hstart by auto. by apply elem_of_nil in Hstart.
Qed.

(** C7 at a serial batch of two files, right after [setup] started it. *)
Lemma serial_one_at_a_time_witness :
  count_running (tasks (Samples.two_files DEBUG Samples.serial)) ≤ 1.
Proof.
  apply (serial_one_at_a_time Samples.loaders DEBUG
           (Samples.two_files DEBUG Samples.serial)).
  - apply reach_setup.
  - reflexivity.
Defined.

(** The amended C1 at a batch of two files: both complete, nothing is added. *)
Lemma progress_amended_witness :
  StronglySorted Num_le
    (progress_values
       (run Samples.loaders DEBUG
          [Samples.done 1 (VStr "B"); Samples.done 0 (VStr "A")]
          (Samples.two_files DEBUG Samples.parallel)).2).
Proof.
  apply (progress_amended Samples.loaders DEBUG
           (Samples.two_files DEBUG Samples.parallel)).
  - apply reach_setup.
  - reflexivity.
Defined.

(** C1 as stated fails: of two files, the first completes (progress 1/2),
    then the second completes and its listeners push three more descriptors
    (progress 2/5). *)
Lemma progress_not_monotone :
  progress_values
    (run Samples.loaders DEBUG
       [Samples.done 0 (VStr "A");
        Samples.done_adding 1 (VStr "B")
          [VStr "c.png"; VStr "d.png"; VStr "e.png"]]
       (Samples.two_files DEBUG Samples.parallel)).2
  = [Fin (1 # 2); Fin (2 # 5)] ∧
  ¬ Num_le (Fin (1 # 2)) (Fin (2 # 5)).
Proof.
  split; [by vm_compute|].
  unfold Num_le, Qle. simpl. lia.
Qed.

End Coordinator.

(** ** The size resolver *)

Module Resolver.
Import Js AssetSizes.

Lemma Qdiv_one q : (q / 1 == q)%Q.
Proof. unfold Qdiv. change (/ 1)%Q with 1%Q. apply Qmult_1_r. Qed.

Lemma sd_hd_sizes :
  size_id <$> _sizes Samples.sd_hd = ["sd"; "hd"] ∧
  maxSize <$> _sizes Samples.sd_hd = [100%Q; 800%Q].
Proof. by vm_compute. Qed.

(** C8 as stated fails: on a viewport of 100 by 100 the test
    [100 / 1 > 100] is false for "sd", the loop breaks, and the active
    profile is "hd". *)
Lemma refresh_100_is_hd :
  active (refresh (Some 1%Q) 100 100 Samples.sd_hd) = Some "hd" ∧
  active (refresh (Some 1%Q) 100 100 Samples.sd_hd) ≠ Some "sd".
Proof. by vm_compute. Qed.

(** C8, as amended.  With the profiles "sd" (maxSize 100) and "hd" (maxSize
    800) and a pixel ratio of 1, [refresh(100, 100)] makes "hd" the active
    profile and [refresh(50, 50)] makes "sd" the active one: the active
    profile is the smallest one whose maxSize is strictly above the smaller
    side of the viewport, "sd" below 100, "hd" from 100 to below 800, and
    none from 800 on. *)
Theorem refresh_sd_hd :
  active (refresh (Some 1%Q) 100 100 Samples.sd_hd) = Some "hd" ∧
  active (refresh (Some 1%Q) 50 50 Samples.sd_hd) = Some "sd" ∧
  ∀ width height : Q,
    active (refresh (Some 1%Q) width height Samples.sd_hd) =
    if gt 100 (Math_min width height) then Some "sd"
    else if gt 800 (Math_min width height) then Some "hd"
    else None.
Proof.
  split; [by vm_compute|]. split; [by vm_compute|].
  intros width height. unfold refresh, active. cbn [_preferredSize].
  set (m := Math_min width height).
  assert (reverse (_sizes Samples.sd_hd)
          = [ {| size_id := "hd"; maxSize := 800; scale := 1;
                 fallback := ["sd"] |};
              {| size_id := "sd"; maxSize := 100; scale := 1 # 2;
                 fallback := [] |} ]) as -> by by vm_compute.
  cbn [refresh_from maxSize].
  assert (∀ q, gt (q / pixelRatio (Some 1%Q)) m = gt q m) as Hq.
  { intros q. unfold gt. f_equal. apply Bool.eq_iff_eq_true.
    rewrite !Qle_bool_iff. change (pixelRatio (Some 1%Q)) with 1%Q.
    by rewrite Qdiv_one. }
  rewrite !Hq.
  destruct (gt 800 m) eqn:E800, (gt 100 m) eqn:E100; try done.
  (* above 800 is above 100 *)
  unfold gt in *. apply negb_false_iff, Qle_bool_iff in E800.
  apply negb_true_iff in E100.
  assert (¬ (100 <= m)%Q) as H by (rewrite <- Qle_bool_iff; congruence).
  destruct H. eapply Qle_trans; [|apply E800]. by vm_compute.
Qed.

(** When every entry of the fallback chain is marked unsupported, the loop
    of [size] leaves the preferred size in place and [size] returns it,
    whether the preferred size itself is supported or not. *)
Lemma size_fallback_exhausted marks map chain preferred :
  Forall (λ alt, marks !! alt = Some false) chain →
  size_fallback marks map chain (Some preferred) = Some preferred.
Proof.
  induction 1 as [|alt chain Halt _ IH]; [done|].
  cbn [size_fallback]. by rewrite Halt.
Qed.

Lemma size_exhausted marks s preferred :
  _preferredSize s = Some preferred →
  Forall (λ alt, marks !! alt = Some false) (fallback preferred) →
  size (Some marks) s = inr preferred.
Proof.
  intros Hp Hall. unfold size. rewrite Hp.
  destruct (negb (default false (marks !! size_id preferred))); [|done].
  by rewrite size_fallback_exhausted.
Qed.

(** C9 fails on the code.  With "hd" active and its fallback chain ["sd"]:
    when the capability map marks both "hd" and "sd" unsupported, no entry
    of the chain qualifies and [size] returns "hd" instead of throwing; and
    when the map says nothing about "hd" (it only marks "sd" supported),
    [size] leaves the active profile for "sd".  The example of the spec,
    with "hd" alone marked unsupported, gives "sd". *)
Lemma size_returns_unsupported :
  active Samples.hd_active = Some "hd" ∧
  (fallback <$> _preferredSize Samples.hd_active) = Some ["sd"] ∧
  match size (Some {[ "hd" := false; "sd" := false ]}) Samples.hd_active with
  | inr s => size_id s = "hd"
  | inl _ => False
  end ∧
  match size (Some {[ "sd" := true ]}) Samples.hd_active with
  | inr s => size_id s = "sd"
  | inl _ => False
  end ∧
  match size (Some {[ "hd" := false ]}) Samples.hd_active with
  | inr s => size_id s = "sd"
  | inl _ => False
  end.
Proof. by vm_compute. Qed.

End Resolver.

(** ** The dispatcher *)

Module Dispatcher.
Import Js Loader.

(** C10 fails on the code for a url that names a member of
    [Object.prototype].  [cancel(url)] with an item tracked under [url]
    returns true, aborts the item (it calls [clear] on it, directly and
    again in [_putItem]), puts it at the end of the pool and deletes from
    the active map the key that the cleared item carries as its url.  With
    no item under [url] it returns false and leaves the active map, the pool
    and the items as they are, unless [url] is a name that the active map
    inherits ("toString", "constructor", ...): then it throws a TypeError
    instead of returning false. *)
Theorem cancel_outcomes (clear : LoaderItem → LoaderItem)
    (u : string) (l : Loader) :
  (∀ item i, items l !! u = Some item → heap l !! item = Some i →
     ∃ l', cancel clear u l = inr (true, l') ∧
           itemPool l' = itemPool l ++ [item] ∧
           heap l' !! item = Some (clear (clear i)) ∧
           items l' = delete (default "null" (url (clear i))) (items l)) ∧
  (items l !! u = None → inherited u = false →
     cancel clear u l = inr (false, l)) ∧
  (items l !! u = None → inherited u = true →
     cancel clear u l = inl TypeError).
Proof.
  unfold cancel. split; [|split].
  - intros item i -> Hi. eexists. split; [reflexivity|].
    unfold _putItem, item_clear, url_key. cbn [items itemPool heap].
    rewrite !lookup_alter_eq, Hi. by repeat split.
  - by intros -> ->.
  - by intros -> ->.
Qed.

(** C10 at a dispatcher with "a.png" in flight: cancelling "toString",
    which is not tracked, throws; cancelling "b.png", which is not tracked
    either, returns false and changes nothing. *)
Lemma cancel_outcomes_witness :
  cancel Samples.forget "toString" Samples.one_in_flight = inl TypeError ∧
  cancel Samples.forget "b.png" Samples.one_in_flight
  = inr (false, Samples.one_in_flight).
Proof.
  destruct (cancel_outcomes Samples.forget "toString" Samples.one_in_flight)
    as (_ & _ & Hthrow).
  destruct (cancel_outcomes Samples.forget "b.png" Samples.one_in_flight)
    as (_ & Hno & _).
  split; [exact (Hthrow eq_refl eq_refl) | exact (Hno eq_refl eq_refl)].
Defined.

End Dispatcher.

(** ** The batch coordinator: life cycle, scheduling and defaults *)

Module Lifecycle.
Import Js AssetLoad Hoare Coordinator.

#[local] Arguments addTask : simpl never.
#[local] Arguments addTasks : simpl never.
#[local] Arguments nextTask : simpl never.
#[local] Arguments taskDone_store : simpl never.
#[local] Arguments taskDone_finish : simpl never.
#[local] Arguments taskDone : simpl never.
#[local] Arguments start : simpl never.
#[local] Arguments setup : simpl never.
#[local] Arguments div : simpl never.

(** *** Task identities *)

#[global] Instance allocation_step : Step allocation.
Proof.
  split.
  - intros b. split; [done|]. by rewrite Nat.sub_diag, app_nil_r.
  - intros b1 b2 b3 e1 e2 [Hn1 Hr1] [Hn2 Hr2]. split; [lia|].
    rewrite Hr2, Hr1, <- app_assoc. f_equal.
    replace (nextRef b3 - nextRef b1)
      with ((nextRef b2 - nextRef b1) + (nextRef b3 - nextRef b2)) by lia.
    rewrite seq_app. do 2 f_equal. lia.
Qed.

Lemma refs_assign_id ref id ts : refs (assign_id ref id ts) = refs ts.
Proof.
  unfold refs, assign_id. rewrite <- list_fmap_compose.
  apply list_fmap_ext. intros i t _. simpl. by destruct (task_ref t =? ref).
Qed.

Section Identities.
Variable taskDefs : list TaskClass.
Variable build : Build.

(** The three ways [addTask] can end. *)
Lemma addTask_cases asset b :
  (∃ e, addTask taskDefs build asset b = mkRes (inl e) b []) ∨
  (∃ cls a,
     addTask taskDefs build asset b
     = mkRes (inr (Some (Task_new (nextRef b) cls a)))
         (with_pushed (Task_new (nextRef b) cls a) b) []) ∨
  (∃ es, addTask taskDefs build asset b = mkRes (inr None) b es).
Proof.
  unfold addTask. rewrite bind_this.
  destruct (default_type (type b) asset) as [e|a]; cbn [lift].
  { left. by exists e. }
  rewrite bind_ret. destruct (getTaskByAsset taskDefs a) as [cls|].
  - destruct (default_cache (cacheAll b) a) as [e|a']; cbn [lift].
    { left. by exists e. }
    right. left. exists cls, a'. by rewrite bind_ret, bind_modify.
  - right. right. unfold debug_error. destruct build; by eexists.
Qed.

Lemma addTask_allocation asset :
  sound allocation (addTask taskDefs build asset).
Proof.
  intros b.
  destruct (addTask_cases asset b) as [[e ->]|[(cls & a & ->)|[es ->]]];
    cbn [st evs]; try apply step_refl.
  - split; cbn [nextRef tasks with_pushed]; [lia|].
    unfold refs. rewrite fmap_app.
    replace (S (nextRef b) - nextRef b) with 1 by lia. done.
  - split; [done|]. by rewrite Nat.sub_diag, app_nil_r.
Qed.

Lemma debug_error_allocation msg : sound allocation (debug_error build msg).
Proof.
  intros b. unfold debug_error.
  destruct build; (split; [done|]); by rewrite Nat.sub_diag, app_nil_r.
Qed.

Lemma addTasks_array_allocation items m :
  sound allocation (addTasks_array taskDefs build items m).
Proof.
  revert m. induction items as [|item rest IH]; intros m; simpl.
  - sapply sound_ret.
  - sapply sound_bind; [apply addTask_allocation | intros [t|]].
    + apply IH.
    + sapply sound_raise.
Qed.

Lemma assign_id_allocation ref id b :
  allocation b (with_tasks (assign_id ref id (tasks b)) b) [].
Proof.
  split; cbn [nextRef tasks with_tasks]; [done|].
  by rewrite refs_assign_id, Nat.sub_diag, app_nil_r.
Qed.

Lemma addTasks_object_allocation props :
  sound allocation (addTasks_object taskDefs build props).
Proof.
  induction props as [|[id item] rest IH]; simpl.
  - sapply sound_ret.
  - sapply sound_bind; [apply addTask_allocation | intros [t|]].
    + sapply sound_bind; [| intros _; apply IH].
      destruct (has_id t); [sapply sound_ret|].
      sapply sound_modify. intros b. apply assign_id_allocation.
    + sapply sound_raise.
Qed.

Lemma addTasks_allocation assets :
  sound allocation (addTasks taskDefs build assets).
Proof.
  unfold addTasks.
  sapply sound_bind; [sapply sound_this | intros b].
  sapply sound_bind; [sapply sound_lift | intros a].
  destruct (getTaskByAsset taskDefs a).
  - sapply sound_bind; [apply addTask_allocation |].
    intros _. sapply sound_ret.
  - destruct (undo_type (type b) a);
      try (sapply sound_bind; [apply debug_error_allocation |];
           intros _; sapply sound_ret).
    + sapply sound_bind; [apply addTasks_object_allocation |].
      intros _. sapply sound_ret.
    + apply addTasks_array_allocation.
Qed.

Lemma refs_nextTask_from all ts : refs (nextTask_from all ts).1 = refs ts.
Proof.
  induction ts as [|t ts IH]; [done|]. cbn [nextTask_from].
  destruct (nextTask_from all ts) as [ts' es]. cbn [fst] in IH.
  destruct (task_status t), all; cbn [fst]; unfold refs in *;
    rewrite ?fmap_cons; cbn [task_ref]; by rewrite ?IH.
Qed.

Lemma nextTask_refs b :
  refs (tasks (st (nextTask b))) = refs (tasks b) ∧
  nextRef (st (nextTask b)) = nextRef b.
Proof.
  unfold nextTask.
  pose proof (refs_nextTask_from (startAll b) (tasks b)) as H.
  destruct (nextTask_from (startAll b) (tasks b)) as [ts es]. by split.
Qed.

Lemma refs_ok_allocation b b' es :
  refs_ok b → allocation b b' es → refs_ok b'.
Proof.
  intros [Hnd Hlt] [Hn Hr]. unfold refs_ok. rewrite Hr. split.
  - apply NoDup_app. split; [done|]. split; [|apply NoDup_seq].
    intros r Hr1 Hr2. apply elem_of_seq in Hr2.
    rewrite Forall_forall in Hlt. specialize (Hlt r Hr1). lia.
  - apply Forall_app. split.
    + eapply Forall_impl; [apply Hlt|]. simpl. lia.
    + apply Forall_forall. intros r Hr'. apply elem_of_seq in Hr'. lia.
Qed.


Lemma NoDup_delete_lookup {A} (l : list A) i x :
  NoDup l → l !! i = Some x → NoDup (delete i l) ∧ x ∉ delete i l.
Proof.
  intros Hnd Hl. rewrite delete_take_drop.
  rewrite <- (take_drop_middle l i x Hl) in Hnd.
  apply NoDup_app in Hnd as (Ht & Hdisj & Hd).
  apply NoDup_cons in Hd as [Hx Hd]. split.
  - apply NoDup_app. repeat split; try done.
    intros y Hy Hy'. apply (Hdisj y Hy). by right.
  - intros [H|H]%elem_of_app; [|done]. apply (Hdisj x H). by left.
Qed.

Lemma indexOf_None ts r : r ∉ refs ts → indexOf ts r = None.
Proof.
  induction ts as [|t ts IH]; [done|]. unfold refs. rewrite fmap_cons.
  intros Hr. apply not_elem_of_cons in Hr as [Hne Hr]. cbn [indexOf].
  destruct (task_ref t =? r) eqn:E; [by apply Nat.eqb_eq in E|].
  by rewrite IH.
Qed.

Lemma pending_None b r : r ∉ refs (tasks b) → pending b r = None.
Proof. intros H. unfold pending. by rewrite indexOf_None. Qed.

Lemma taskDone_store_refs task result b :
  tasks (st (taskDone_store task result b)) = tasks b ∧
  nextRef (st (taskDone_store task result b)) = nextRef b ∧
  type (st (taskDone_store task result b)) = type b.
Proof.
  rewrite taskDone_store_eq. destruct (truthy result); [|done].
  by destruct (fold_result _ _ _ _).
Qed.

Lemma taskDone_finish_refs m b :
  refs (tasks (st (taskDone_finish build m b))) = refs (tasks b) ∧
  nextRef (st (taskDone_finish build m b)) = nextRef b.
Proof.
  rewrite taskDone_finish_eq.
  destruct (mode_eqb (mode b) MAP_MODE && negb (mode_eqb m (mode b))).
  { by destruct build. }
  set (r := match tasks b with [] => _ | _ => _ end).
  assert (r = mkRes (inr tt) b [Complete (results b)] ∨ r = nextTask b)
    as [-> | ->] by (subst r; destruct (tasks b); auto); [done|].
  apply nextTask_refs.
Qed.

(** A handled signal takes its task out of the pending list and adds, at the
    end, the tasks built for the descriptors it admits. *)
Lemma taskDone_refs c b index task :
  running b = true → pending b (c_task c) = Some (index, task) →
  ∃ k, refs (tasks (st (taskDone taskDefs build c b)))
       = delete index (refs (tasks b)) ++ seq (nextRef b) k ∧
       nextRef (st (taskDone taskDefs build c b)) = nextRef b + k.
Proof.
  intros Hrun Hpend. rewrite (taskDone_active _ _ _ _ _ _ Hrun Hpend). cbv zeta.
  set (b1 := with_tasks (delete index (tasks b)) b).
  destruct (taskDone_store_refs task (produced c) b1) as (Hts & Hn & _).
  set (r1 := taskDone_store task (produced c) b1) in *.
  assert (refs (tasks (st r1)) = delete index (refs (tasks b))) as Hr1.
  { rewrite Hts. unfold b1, refs. cbn [tasks with_tasks].
    apply list_fmap_delete. }
  assert (nextRef (st r1) = nextRef b) as Hn1 by by rewrite Hn.
  destruct (out r1) as [e|[]].
  { exists 0. cbn [st seq]. by rewrite app_nil_r, Nat.add_0_r. }
  pose proof (addTasks_allocation (VArr (additions task c) []) (st r1)) as Ha.
  set (r2 := addTasks taskDefs build _ (st r1)) in *.
  destruct Ha as [Hle Hrefs]. rewrite Hr1, Hn1 in Hrefs. rewrite Hn1 in Hle.
  destruct (out r2) as [e|m]; cbn [st].
  { exists (nextRef (st r2) - nextRef b). split; [done|lia]. }
  destruct (taskDone_finish_refs m
              (with_numLoaded (S (numLoaded (st r2))) (st r2))) as [-> ->].
  cbn [tasks nextRef with_numLoaded].
  exists (nextRef (st r2) - nextRef b). split; [done|lia].
Qed.

Lemma taskDone_refs_ok c b :
  refs_ok b → refs_ok (st (taskDone taskDefs build c b)).
Proof.
  intros Hok.
  destruct (decide (running b = false)) as [Hrun|Hrun];
    [by rewrite taskDone_idle by auto|].
  apply not_false_is_true in Hrun.
  destruct (pending b (c_task c)) as [[index task]|] eqn:Hpend;
    [|by rewrite taskDone_idle by auto].
  destruct (taskDone_refs c b index task Hrun Hpend) as (k & Hr & Hn).
  apply pending_lookup in Hpend as [Hlook Href].
  destruct Hok as [Hnd Hlt]. unfold refs_ok. rewrite Hr, Hn.
  assert (refs (tasks b) !! index = Some (task_ref task)) as Hl
    by (unfold refs; by rewrite list_lookup_fmap, Hlook).
  destruct (NoDup_delete_lookup _ _ _ Hnd Hl) as [Hnd' _].
  assert (Forall (λ r, r < nextRef b) (delete index (refs (tasks b)))) as Hlt'.
  { apply Forall_forall. intros r Hr'. rewrite Forall_forall in Hlt.
    by apply Hlt, (list_elem_of_delete_inv r index). }
  split.
  - apply NoDup_app. split; [done|]. split; [|apply NoDup_seq].
    intros r Hr1 Hr2. apply elem_of_seq in Hr2.
    rewrite Forall_forall in Hlt'. specialize (Hlt' r Hr1). lia.
  - apply Forall_app. split.
    + eapply Forall_impl; [apply Hlt'|]. simpl. lia.
    + apply Forall_forall. intros r Hr'. apply elem_of_seq in Hr'. lia.
Qed.

Lemma fresh_refs_ok ref : refs_ok (fresh ref).
Proof. split; [apply NoDup_nil_2 | apply Forall_nil_2]. Qed.

Lemma start_refs_ok b : refs_ok b → refs_ok (st (start b)).
Proof.
  intros [Hnd Hlt]. rewrite start_eq. cbv zeta. cbn [st].
  destruct (nextTask_refs (with_running true b)) as [Hr Hn].
  unfold refs_ok. by rewrite Hr, Hn.
Qed.

Lemma setup_refs_ok ref assets options :
  refs_ok (st (setup taskDefs build assets options (fresh ref))).
Proof.
  rewrite setup_eq. cbv zeta.
  pose proof (addTasks_allocation assets (with_options options (fresh ref)))
    as Ha.
  assert (refs_ok (with_options options (fresh ref))) as H0
    by apply fresh_refs_ok.
  pose proof (refs_ok_allocation _ _ _ H0 Ha) as H1.
  set (r := addTasks taskDefs build assets _) in *.
  destruct (out r) as [e|m]; [done|].
  destruct (opt_autoStart options); [|done].
  cbn [st]. by apply start_refs_ok.
Qed.

Lemma reachable_refs_ok b : reachable taskDefs build b → refs_ok b.
Proof.
  induction 1 as [ref|ref assets options|b _ IH _|b c _ IH _].
  - apply fresh_refs_ok.
  - apply setup_refs_ok.
  - by apply start_refs_ok.
  - by apply taskDone_refs_ok.
Qed.

(** After a signal for a task has been handled, the task is not pending. *)
Lemma taskDone_not_pending c b :
  refs_ok b →
  pending (st (taskDone taskDefs build c b)) (c_task c) = None ∨
  running (st (taskDone taskDefs build c b)) = false.
Proof.
  intros Hok.
  destruct (decide (running b = false)) as [Hrun|Hrun];
    [right; by rewrite taskDone_idle by auto|].
  apply not_false_is_true in Hrun. left.
  destruct (pending b (c_task c)) as [[index task]|] eqn:Hpend;
    [|by rewrite taskDone_idle by auto].
  destruct (taskDone_refs c b index task Hrun Hpend) as (k & Hr & Hn).
  apply pending_lookup in Hpend as [Hlook Href].
  destruct Hok as [Hnd Hlt]. apply pending_None. rewrite Hr.
  assert (refs (tasks b) !! index = Some (task_ref task)) as Hl
    by (unfold refs; by rewrite list_lookup_fmap, Hlook).
  destruct (NoDup_delete_lookup _ _ _ Hnd Hl) as [_ Hnot].
  rewrite <- Href. intros [H|H]%elem_of_app; [done|].
  apply elem_of_seq in H. rewrite Forall_forall in Hlt.
  assert (task_ref task ∈ refs (tasks b)) as Hin
    by (apply list_elem_of_lookup; eauto).
  specialize (Hlt _ Hin). lia.
Qed.

End Identities.

(** X1.  Stale completion signals are ignored.  In every state a batch
    reaches, once a completion signal for a task has been handled, a second
    signal for the same task changes nothing and emits nothing. *)
Theorem stale_signal_ignored taskDefs build b c c' :
  reachable taskDefs build b →
  c_task c' = c_task c →
  taskDone taskDefs build c' (st (taskDone taskDefs build c b))
  = mkRes (inr tt) (st (taskDone taskDefs build c b)) [].
Proof.
  intros Hb Hc. apply taskDone_idle. rewrite Hc.
  destruct (taskDone_not_pending taskDefs build c b) as [H|H]; auto.
  by apply reachable_refs_ok in Hb.
Qed.

(** X1 at two files in flight: the first file arrives twice. *)
Lemma stale_signal_ignored_witness :
  let b := Samples.two_files DEBUG Samples.parallel in
  let b' := st (taskDone Samples.loaders DEBUG (Samples.done 0 (VStr "A")) b) in
  taskDone Samples.loaders DEBUG (Samples.done 0 (VStr "again")) b'
  = mkRes (inr tt) b' [].
Proof.
  cbv zeta.
  apply (stale_signal_ignored Samples.loaders DEBUG
           (Samples.two_files DEBUG Samples.parallel)
           (Samples.done 0 (VStr "A")) (Samples.done 0 (VStr "again"))).
  - apply reach_setup.
  - reflexivity.
Defined.

(** *** Scheduling *)

Lemma waiting_cons t ts :
  waiting (t :: ts)
  = if is_waiting t then task_ref t :: waiting ts else waiting ts.
Proof.
  unfold waiting, refs. rewrite filter_cons.
  destruct (is_waiting t); by case_decide.
Qed.

Lemma nextTask_from_all ts :
  (nextTask_from true ts).2 = TaskStart <$> waiting ts ∧
  waiting (nextTask_from true ts).1 = [].
Proof.
  induction ts as [|t ts [IHe IHw]]; [done|].
  cbn [nextTask_from]. rewrite waiting_cons. unfold is_waiting.
  destruct (nextTask_from true ts) as [ts' es]. cbn [fst snd] in *.
  destruct (task_status t) eqn:E; cbn [fst snd];
    rewrite waiting_cons; unfold is_waiting; cbn [task_status];
    rewrite ?E, ?fmap_cons, IHe, IHw; done.
Qed.

Lemma nextTask_from_one ts :
  (nextTask_from false ts).2 = TaskStart <$> take 1 (waiting ts) ∧
  waiting (nextTask_from false ts).1 = drop 1 (waiting ts).
Proof.
  induction ts as [|t ts [IHe IHw]]; [done|].
  cbn [nextTask_from]. rewrite waiting_cons. unfold is_waiting.
  destruct (nextTask_from false ts) as [ts' es]. cbn [fst snd] in *.
  destruct (task_status t) eqn:E; cbn [fst snd];
    rewrite waiting_cons; unfold is_waiting; cbn [task_status];
    rewrite ?E; cbn [take drop fmap list_fmap]; done.
Qed.

(** X2.  With the parallel policy one pass of [nextTask] starts every
    WAITING task, in admission order, and leaves none waiting; the tasks
    that were RUNNING stay RUNNING, and a second pass starts nothing. *)
Theorem parallel_starts_all b :
  startAll b = true →
  evs (nextTask b) = TaskStart <$> waiting (tasks b) ∧
  waiting (tasks (st (nextTask b))) = [] ∧
  count_running (tasks (st (nextTask b)))
  = count_running (tasks b) + length (waiting (tasks b)) ∧
  evs (nextTask (st (nextTask b))) = [].
Proof.
  intros Hall.
  assert (∀ b, startAll b = true →
            evs (nextTask b) = TaskStart <$> waiting (tasks b) ∧
            waiting (tasks (st (nextTask b))) = []) as Hpass.
  { intros b0 H0. unfold nextTask. rewrite H0.
    destruct (nextTask_from_all (tasks b0)) as [He Hw].
    by destruct (nextTask_from true (tasks b0)) as [ts es]. }
  destruct (Hpass b Hall) as [He Hw].
  destruct (nextTask_dispatch b) as [].
  repeat split; try done.
  - by rewrite dis_count0, He, length_fmap.
  - destruct (Hpass (st (nextTask b))) as [He' _]; [congruence|].
    by rewrite He', Hw.
Qed.

(** X2 at two files that were set up without being started. *)
Lemma parallel_starts_all_witness :
  let b := Samples.two_files DEBUG
             {| opt_startAll := true; opt_autoStart := false;
                opt_cacheAll := false; opt_type := None |} in
  evs (nextTask b) = [TaskStart 0; TaskStart 1] ∧
  waiting (tasks (st (nextTask b))) = [].
Proof.
  cbv zeta.
  destruct (parallel_starts_all
              (Samples.two_files DEBUG
                 {| opt_startAll := true; opt_autoStart := false;
                    opt_cacheAll := false; opt_type := None |}) eq_refl)
    as (He & Hw & _).
  split; [exact He | exact Hw].
Defined.

(** X3.  With the serial policy a pass of [nextTask] starts the WAITING task
    that was admitted first, and only that one; the other WAITING tasks stay
    waiting, in their order. *)
Theorem serial_starts_first b :
  startAll b = false →
  evs (nextTask b) = TaskStart <$> take 1 (waiting (tasks b)) ∧
  waiting (tasks (st (nextTask b))) = drop 1 (waiting (tasks b)).
Proof.
  intros Hall. unfold nextTask. rewrite Hall.
  destruct (nextTask_from_one (tasks b)) as [He Hw].
  by destruct (nextTask_from false (tasks b)) as [ts es].
Qed.

(** X3 at two files that were set up without being started. *)
Lemma serial_starts_first_witness :
  let b := Samples.two_files DEBUG
             {| opt_startAll := false; opt_autoStart := false;
                opt_cacheAll := false; opt_type := None |} in
  evs (nextTask b) = [TaskStart 0] ∧
  waiting (tasks (st (nextTask b))) = [1].
Proof.
  cbv zeta.
  exact (serial_starts_first
           (Samples.two_files DEBUG
              {| opt_startAll := false; opt_autoStart := false;
                 opt_cacheAll := false; opt_type := None |}) eq_refl).
Defined.

(** *** Counters, progress and completion *)

Section Completion.
Variable taskDefs : list TaskClass.
Variable build : Build.


Lemma quiet_store task result b :
  Forall quiet (evs (taskDone_store task result b)).
Proof.
  destruct (taskDone_store_frame task result b) as (_ & _ & _ & _ & _ & _ & H).
  eapply Forall_impl; [apply H|]. by intros [] ? ?.
Qed.

Lemma quiet_notifications task result c :
  Forall quiet (notifications task result c).
Proof.
  unfold notifications. destruct (task_complete task); by repeat constructor.
Qed.

Lemma quiet_admission b b' es : admission b b' es → Forall quiet es.
Proof.
  intros H. eapply Forall_impl; [apply (adm_events _ _ _ H)|].
  by intros e [msg ->] ?.
Qed.

Lemma quiet_not_elem es x : Forall quiet es → Complete x ∉ es.
Proof.
  intros H Hin. rewrite Forall_forall in H. by apply (H _ Hin x).
Qed.

(** The end of the handler emits [complete] in one case only: no violation
    of the map shape, and nothing pending. *)
Lemma taskDone_finish_complete m b x :
  Complete x ∈ evs (taskDone_finish build m b) →
  taskDone_finish build m b = mkRes (inr tt) b [Complete (results b)] ∧
  tasks b = [] ∧ x = results b.
Proof.
  rewrite taskDone_finish_eq.
  destruct (mode_eqb (mode b) MAP_MODE && negb (mode_eqb m (mode b))).
  { destruct build; cbn [evs]; intros H.
    - apply list_elem_of_singleton in H. done.
    - by apply elem_of_nil in H. }
  destruct (tasks b) as [|t ts] eqn:E.
  - cbn [evs]. intros H. apply list_elem_of_singleton in H as [= ->]. done.
  - intros H. destruct (nextTask_dispatch b) as [].
    rewrite Forall_forall in dis_events0. by specialize (dis_events0 _ H).
Qed.

Lemma taskDone_complete c b x :
  Complete x ∈ evs (taskDone taskDefs build c b) →
  out (taskDone taskDefs build c b) = inr tt ∧
  tasks (st (taskDone taskDefs build c b)) = [] ∧
  x = results (st (taskDone taskDefs build c b)) ∧
  ∃ before, evs (taskDone taskDefs build c b) = before ++ [Complete x] ∧
            Forall quiet before.
Proof.
  destruct (decide (running b = false)) as [Hrun|Hrun].
  { rewrite taskDone_idle by auto. intros H. by apply elem_of_nil in H. }
  apply not_false_is_true in Hrun.
  destruct (pending b (c_task c)) as [[index task]|] eqn:Hpend; cycle 1.
  { rewrite taskDone_idle by auto. intros H. by apply elem_of_nil in H. }
  rewrite (taskDone_active _ _ _ _ _ _ Hrun Hpend). cbv zeta.
  set (b1 := with_tasks (delete index (tasks b)) b).
  pose proof (quiet_store task (produced c) b1) as Hq1.
  set (r1 := taskDone_store task (produced c) b1) in *.
  destruct (out r1) as [e|[]].
  { cbn [evs]. intros H. by apply quiet_not_elem in H. }
  pose proof (quiet_admission _ _ _
                (addTasks_sound taskDefs build (VArr (additions task c) [])
                   (st r1))) as Hq2.
  set (r2 := addTasks taskDefs build _ (st r1)) in *.
  pose proof (quiet_notifications task (produced c) c) as Hqn.
  destruct (out r2) as [e|m]; cbn [out st evs].
  { intros H. apply quiet_not_elem in H; [done|].
    apply Forall_app. split; [done|]. apply Forall_app. by split. }
  set (b3 := with_numLoaded (S (numLoaded (st r2))) (st r2)).
  intros H.
  assert (Complete x ∈ evs (taskDone_finish build m b3)) as Hfin.
  { rewrite !elem_of_app, elem_of_cons in H.
    destruct H as [H|[H|[H|[H|H]]]]; try done;
      by apply quiet_not_elem in H. }
  destruct (taskDone_finish_complete m b3 x Hfin) as (-> & Hts & ->).
  cbn [out st evs]. repeat split; try done.
  exists (evs r1 ++ notifications task (produced c) c ++ evs r2 ++
          [Progress (div (S (numLoaded (st r2))) (total (st r2)))]).
  split.
  - by rewrite <- !app_assoc.
  - apply Forall_app. split; [done|].
    apply Forall_app. split; [done|]. apply Forall_app. split; [done|].
    by repeat constructor.
Qed.

(** Along a run nothing is taken back from the counters. *)
Lemma run_monotone cs b :
  counters_ok b →
  total b ≤ total (run taskDefs build cs b).1 ∧
  numLoaded b ≤ numLoaded (run taskDefs build cs b).1 ∧
  counters_ok (run taskDefs build cs b).1.
Proof.
  revert b. induction cs as [|c cs IH]; intros b Hok; [by repeat split|].
  rewrite run_cons. cbv zeta. cbn [fst].
  destruct (taskDone_counters taskDefs build c b Hok) as (Hok' & Hle & Hcase).
  destruct (IH _ Hok') as (? & ? & ?).
  destruct Hcase as [[_ Hn]|(_ & Hn & _)]; repeat split; try done; lia.
Qed.

Lemma setup_exact ref assets options :
  counters_exact (st (setup taskDefs build assets options (fresh ref))).
Proof.
  rewrite setup_eq. cbv zeta.
  pose proof (addTasks_sound taskDefs build assets
                (with_options options (fresh ref))) as Hadm.
  set (r := addTasks taskDefs build assets _) in *.
  destruct Hadm as [_ _ _ Hn _ _ _ Htot _ _ _].
  cbn [numLoaded total tasks with_options fresh length] in *.
  assert (counters_exact (st r)) as Hex by (unfold counters_exact; lia).
  destruct (out r) as [e|m]; [done|].
  destruct (opt_autoStart options); [|done].
  cbn [st]. rewrite start_eq. cbv zeta. cbn [st].
  destruct (nextTask_dispatch
              (with_running true
                 (with_results (_getAssetsContainer m) (with_mode m (st r)))))
    as [].
  unfold counters_exact in *.
  rewrite dis_numLoaded0, dis_length0, dis_total0. done.
Qed.

(** A handled signal whose handler returns: the counters stay exact, and
    there is one progress value, which is 1.0 exactly when nothing is left
    pending. *)
Lemma taskDone_exact c b index task :
  counters_exact b → running b = true →
  pending b (c_task c) = Some (index, task) →
  out (taskDone taskDefs build c b) = inr tt →
  counters_exact (st (taskDone taskDefs build c b)) ∧
  ∃ p, progress_values (evs (taskDone taskDefs build c b)) = [p] ∧
       (is_one p ↔ tasks (st (taskDone taskDefs build c b)) = []).
Proof.
  intros Hex Hrun Hpend.
  assert (counters_ok b) as Hok by (unfold counters_ok, counters_exact in *; lia).
  destruct (taskDone_counters taskDefs build c b Hok) as (_ & _ & Hcase).
  revert Hcase.
  rewrite (taskDone_active _ _ _ _ _ _ Hrun Hpend). cbv zeta.
  apply pending_lookup in Hpend as [Hlook _].
  pose proof (length_delete (tasks b) index (mk_is_Some _ _ Hlook)) as Hdel.
  pose proof (lookup_lt_Some _ _ _ Hlook) as Hlt.
  set (b1 := with_tasks (delete index (tasks b)) b).
  destruct (taskDone_store_frame task (produced c) b1)
    as (Hts & Hn & Htot & _).
  set (r1 := taskDone_store task (produced c) b1) in *.
  destruct (out r1) as [e|[]]; [done|].
  pose proof (addTasks_sound taskDefs build (VArr (additions task c) [])
                (st r1)) as Hadm.
  set (r2 := addTasks taskDefs build _ (st r1)) in *.
  destruct Hadm as [_ _ _ Hn2 _ _ _ Htot2 Hgrow _ _].
  rewrite Hts in Htot2, Hgrow. rewrite Hn in Hn2. rewrite Htot in Htot2.
  unfold b1 in Htot2, Hgrow, Hn2.
  cbn [tasks numLoaded total with_tasks] in Htot2, Hgrow, Hn2.
  destruct (out r2) as [e|m]; [done|]. cbn [out st evs].
  set (b3 := with_numLoaded _ (st r2)).
  destruct (taskDone_finish_frame build m b3)
    as (_ & _ & _ & Hn3 & Htot3 & _ & Hlen3 & _).
  intros Hcase _. unfold counters_exact in *.
  rewrite Hn3, Htot3, Hlen3. unfold b3.
  cbn [numLoaded total tasks with_numLoaded].
  split; [lia|].
  destruct Hcase as [[Hnil _]|(Hpv & _ & _)].
  { rewrite !progress_values_app in Hnil.
    apply app_eq_nil in Hnil as [_ Hnil].
    apply app_eq_nil in Hnil as [_ Hnil].
    apply app_eq_nil in Hnil as [_ Hnil]. done. }
  eexists. split; [exact Hpv|].
  rewrite Htot3.
  assert (length (tasks (st (taskDone_finish build m b3)))
          = length (tasks (st r2))) as Hl by (by rewrite Hlen3).
  unfold b3 in *. cbn [total with_numLoaded].
  split.
  - intros H1%div_one. apply nil_length_inv. lia.
  - intros Hnil. rewrite Hnil in Hl. cbn [length] in Hl.
    replace (total (st r2)) with (S (numLoaded b)) by lia.
    unfold div, is_one, Qeq. cbn [Qnum Qden].
    rewrite <- (positive_nat_Z (Pos.of_nat (S (numLoaded b)))),
      Nat2Pos.id by done. lia.
Qed.

End Completion.

(** X4.  The [complete] event of a batch is emitted only by a handler that
    returns normally and leaves nothing pending; it carries the container
    as it is then, and it is the last thing the handler emits, once. *)
Theorem complete_only_when_empty taskDefs build b c x :
  Complete x ∈ evs (taskDone taskDefs build c b) →
  out (taskDone taskDefs build c b) = inr tt ∧
  tasks (st (taskDone taskDefs build c b)) = [] ∧
  x = results (st (taskDone taskDefs build c b)) ∧
  ∃ before, evs (taskDone taskDefs build c b) = before ++ [Complete x] ∧
            Forall (λ e, ∀ y, e ≠ Complete y) before.
Proof. apply taskDone_complete. Qed.

(** X4 at a batch of one file, when the file arrives. *)
Lemma complete_only_when_empty_witness :
  let r := taskDone Samples.loaders DEBUG (Samples.done 0 (VStr "A"))
             (Samples.cached_file DEBUG Samples.parallel) in
  tasks (st r) = [] ∧ VStr "A" = results (st r).
Proof.
  cbv zeta.
  destruct (complete_only_when_empty Samples.loaders DEBUG
              (Samples.cached_file DEBUG Samples.parallel)
              (Samples.done 0 (VStr "A")) (VStr "A")) as (_ & Hts & Hx & _).
  - vm_compute. repeat constructor.
  - split; [exact Hts | exact Hx].
Defined.

(** X5.  Along every run of completion signals from a state the batch
    reaches, [total] and [numLoaded] never decrease, and [numLoaded] plus the
    number of pending tasks stays within [total]. *)
Theorem counters_never_decrease taskDefs build b cs :
  reachable taskDefs build b →
  total b ≤ total (run taskDefs build cs b).1 ∧
  numLoaded b ≤ numLoaded (run taskDefs build cs b).1 ∧
  numLoaded (run taskDefs build cs b).1
  + length (tasks (run taskDefs build cs b).1)
  ≤ total (run taskDefs build cs b).1.
Proof.
  intros Hb. destruct (reachable_ok _ _ _ Hb) as [Hok _].
  apply (run_monotone taskDefs build cs b Hok).
Qed.

(** X5 at two files, one of which arrives and brings three more. *)
Lemma counters_never_decrease_witness :
  let b := Samples.two_files DEBUG Samples.parallel in
  let cs := [Samples.done_adding 1 (VStr "B")
               [VStr "c.png"; VStr "d.png"; VStr "e.png"]] in
  total b ≤ total (run Samples.loaders DEBUG cs b).1 ∧
  numLoaded b ≤ numLoaded (run Samples.loaders DEBUG cs b).1.
Proof.
  cbv zeta.
  destruct (counters_never_decrease Samples.loaders DEBUG
              (Samples.two_files DEBUG Samples.parallel)
              [Samples.done_adding 1 (VStr "B")
                 [VStr "c.png"; VStr "d.png"; VStr "e.png"]])
    as (Ht & Hn & _).
  - apply reach_setup.
  - split; [exact Ht | exact Hn].
Defined.

(** X6.  [setup] leaves the counters exact: every task counted in [total] is
    pending and none is loaded, also when it throws.  From exact counters, a
    handled completion signal whose handler returns keeps them exact
    ([numLoaded] plus pending equals [total]) and emits one progress value,
    which is 1.0 if and only if no task is left pending. *)
Theorem exact_accounting taskDefs build :
  (∀ ref assets options,
     counters_exact (st (setup taskDefs build assets options (fresh ref)))) ∧
  (∀ b c index task,
     counters_exact b → running b = true →
     pending b (c_task c) = Some (index, task) →
     out (taskDone taskDefs build c b) = inr tt →
     counters_exact (st (taskDone taskDefs build c b)) ∧
     ∃ p, progress_values (evs (taskDone taskDefs build c b)) = [p] ∧
          (is_one p ↔ tasks (st (taskDone taskDefs build c b)) = [])).
Proof.
  split.
  - apply setup_exact.
  - intros b c index task. apply taskDone_exact.
Qed.

(** X6 at two files, when the second one arrives first. *)
Lemma exact_accounting_witness :
  let b := Samples.two_files DEBUG Samples.parallel in
  counters_exact
    (st (taskDone Samples.loaders DEBUG (Samples.done 1 (VStr "B")) b)).
Proof.
  cbv zeta.
  destruct (exact_accounting Samples.loaders DEBUG) as [Hsetup Hstep].
  refine (proj1 (Hstep (Samples.two_files DEBUG Samples.parallel)
                   (Samples.done 1 (VStr "B")) 1
                   {| task_ref := 1; task_class := "LoadTask";
                      task_status := RUNNING; task_id := None;
                      task_cache := false; task_complete := false;
                      task_original := VObj [("src", VStr "b.png")] |}
                   (Hsetup 0 _ _) eq_refl eq_refl eq_refl)).
Defined.

(** *** Shapes and defaults *)

Lemma assoc_get_set_eq k x ps : assoc_get k (assoc_set k x ps) = Some x.
Proof.
  induction ps as [|[k0 v] ps IH]; simpl.
  - by rewrite String.eqb_refl.
  - destruct (String.eqb k k0) eqn:E; simpl; by rewrite ?E.
Qed.

Lemma assoc_del_set k x ps :
  assoc_get k ps = None → assoc_del k (assoc_set k x ps) = ps.
Proof.
  induction ps as [|[k0 v] ps IH]; simpl.
  - by rewrite String.eqb_refl.
  - destruct (String.eqb k k0) eqn:E; [done|]. simpl. rewrite E.
    intros H. by rewrite IH.
Qed.

Lemma mode_check_map b :
  mode_eqb (mode b) MAP_MODE && negb (mode_eqb MAP_MODE (mode b)) = false.
Proof. by destruct (mode b). Qed.

Lemma indexOf_head t ts : indexOf (t :: ts) (task_ref t) = Some 0.
Proof. cbn [indexOf]. by rewrite Nat.eqb_refl. Qed.

Section Shapes.
Variable taskDefs : list TaskClass.
Variable build : Build.

Lemma taskDone_store_ok task result b :
  container_ok b = true → out (taskDone_store task result b) = inr tt.
Proof.
  intros Hok. rewrite taskDone_store_eq. destruct (truthy result); [|done].
  unfold container_ok in Hok. unfold fold_result, push, set_prop.
  by destruct (mode b), (results b).
Qed.

(** Signals that find nothing pending leave the batch silent. *)
Lemma run_nothing_pending cs b :
  tasks b = [] → run taskDefs build cs b = (b, []).
Proof.
  intros Hts. induction cs as [|c cs IH]; [done|].
  rewrite run_cons. cbv zeta.
  rewrite taskDone_idle by (right; unfold pending; by rewrite Hts).
  cbn [st evs]. by rewrite IH.
Qed.

(** The last pending task of a batch with exact counters arrives and admits
    nothing: progress 1.0, then [complete] with the container. *)
Lemma taskDone_last c b task :
  running b = true → container_ok b = true → counters_exact b →
  tasks b = [task] → c_task c = task_ref task →
  additions task c = [] →
  matched taskDefs (type b) (VArr [] []) = false →
  let r := taskDone taskDefs build c b in
  let r1 := taskDone_store task (produced c) (with_tasks [] b) in
  out r = inr tt ∧ tasks (st r) = [] ∧ numLoaded (st r) = total (st r) ∧
  results (st r) = results (st r1) ∧
  ∃ p, is_one p ∧
       evs r = evs r1 ++ notifications task (produced c) c
               ++ [Progress p; Complete (results (st r))].
Proof.
  intros Hrun Hok Hex Hts Hc Hadd Harr. cbv zeta.
  assert (pending b (c_task c) = Some (0, task)) as Hpend.
  { unfold pending. by rewrite Hts, Hc, indexOf_head. }
  rewrite (taskDone_active _ _ _ _ _ _ Hrun Hpend). cbv zeta.
  rewrite Hts. cbn [delete list_delete].
  set (b1 := with_tasks [] b).
  pose proof (taskDone_store_ok task (produced c) b1 Hok) as Hout1.
  destruct (taskDone_store_frame task (produced c) b1)
    as (Hts1 & Hn1 & Htot1 & _).
  destruct (taskDone_store_refs task (produced c) b1)
    as (_ & _ & Hty1).
  set (r1 := taskDone_store task (produced c) b1) in *.
  rewrite Hout1, Hadd.
  rewrite addTasks_array_eq by (by rewrite Hty1).
  cbn [addTasks_array]. cbn [out st evs mret M_ret ret].
  rewrite taskDone_finish_eq. cbn [mode tasks results with_numLoaded].
  rewrite mode_check_map, Hts1. change (tasks b1) with (@nil Task).
  cbn [out st evs numLoaded total tasks with_numLoaded results].
  unfold counters_exact in Hex. rewrite Hts in Hex. cbn [length] in Hex.
  rewrite Hn1, Htot1, Hts1. change (tasks b1) with (@nil Task).
  change (numLoaded b1) with (numLoaded b). change (total b1) with (total b).
  repeat split; try done; try lia.
  eexists. split; [|reflexivity].
  replace (total b) with (S (numLoaded b)) by lia.
  unfold div, is_one, Qeq. cbn [Qnum Qden].
  rewrite <- (positive_nat_Z (Pos.of_nat (S (numLoaded b)))),
    Nat2Pos.id by done. lia.
Qed.

Lemma default_type_idem ty a a' :
  default_type ty a = inr a' → default_type ty a' = inr a'.
Proof.
  unfold default_type.
  destruct (get_prop a "type") as [e|t] eqn:Hg; [done|].
  destruct t; try (intros [= <-]; by rewrite Hg).
  destruct ty as [s|]; [|intros [= <-]; by rewrite Hg].
  destruct (type_set (Some s)) eqn:Hset;
    [|intros [= <-]; by rewrite Hg].
  destruct a; try done; cbn [set_prop]; intros [= <-]; cbn [get_prop];
    by rewrite assoc_get_set_eq.
Qed.

(** A descriptor that the registry matches, submitted on its own. *)
Lemma addTasks_single d b :
  descriptor d = true → matched taskDefs (type b) d = true →
  ∃ t, addTasks taskDefs build d b
       = mkRes (inr SINGLE_MODE) (with_pushed t b) [] ∧
       task_ref t = nextRef b ∧ task_status t = WAITING.
Proof.
  intros Hd Hm. unfold matched in Hm.
  destruct (default_type_object (type b) _ (_applyDefaults_object _ Hd))
    as (a & Ha & Hobj & _).
  rewrite Ha in Hm. apply bool_decide_eq_true in Hm as [cls Hcls].
  destruct (default_cache_object (cacheAll b) a Hobj) as (a' & Ha' & _).
  exists (Task_new (nextRef b) cls a'). split; [|done].
  unfold addTasks. rewrite bind_this, Ha. cbn [lift]. rewrite bind_ret, Hcls.
  rewrite bind_eq. unfold addTask.
  rewrite bind_this, (default_type_idem _ _ _ Ha). cbn [lift].
  rewrite bind_ret, Hcls, Ha'. cbn [lift]. by rewrite bind_ret, bind_modify.
Qed.

Lemma prop_set_eq v k x v' : set_prop v k x = inr v' → prop v' k = x.
Proof.
  destruct v; try done; intros [= <-]; unfold prop; cbn [get_prop];
    by rewrite assoc_get_set_eq.
Qed.

Lemma default_type_props ty v :
  is_object v = true →
  ∃ a, default_type ty v = inr a ∧ is_object a = true ∧
       prop a "type" = defaulted_type ty (prop v "type") ∧
       ∀ k, String.eqb k "type" = false → prop a k = prop v k.
Proof.
  intros Hobj. unfold default_type, defaulted_type.
  assert (get_prop v "type" = inr (prop v "type")) as ->
    by (unfold prop; by destruct v).
  destruct (prop v "type") eqn:Hp; try (exists v; by rewrite ?Hp).
  destruct ty as [s|]; [|exists v; by rewrite ?Hp].
  destruct (type_set (Some s)); [|exists v; by rewrite ?Hp].
  destruct (set_prop_object v "type" (VStr s) Hobj) as (v' & Hv' & ? & Hk).
  exists v'. rewrite Hv'. repeat split; try done.
  by apply prop_set_eq in Hv'.
Qed.

Lemma default_cache_props all v :
  is_object v = true →
  ∃ a, default_cache all v = inr a ∧
       prop a "cache" = defaulted_cache all (prop v "cache") ∧
       ∀ k, String.eqb k "cache" = false → prop a k = prop v k.
Proof.
  intros Hobj. unfold default_cache, defaulted_cache.
  assert (get_prop v "cache" = inr (prop v "cache")) as ->
    by (unfold prop; by destruct v).
  destruct (prop v "cache") eqn:Hp; try (exists v; by rewrite ?Hp).
  destruct all; [|exists v; by rewrite ?Hp].
  destruct (set_prop_object v "cache" (VBool true) Hobj) as (v' & Hv' & ? & Hk).
  exists v'. rewrite Hv'. repeat split; try done.
  by apply prop_set_eq in Hv'.
Qed.

(** The task that [addTask] builds for a matched descriptor, with what the
    defaults of the batch did to the descriptor. *)
Lemma addTask_built d b :
  descriptor d = true → matched taskDefs (type b) d = true →
  ∃ cls a,
    addTask taskDefs build (_applyDefaults d) b
    = mkRes (inr (Some (Task_new (nextRef b) cls a)))
        (with_pushed (Task_new (nextRef b) cls a) b) [] ∧
    prop a "id" = prop (_applyDefaults d) "id" ∧
    prop a "type" = defaulted_type (type b) (prop (_applyDefaults d) "type") ∧
    prop a "cache"
    = defaulted_cache (cacheAll b) (prop (_applyDefaults d) "cache").
Proof.
  intros Hd Hm. unfold matched in Hm.
  destruct (default_type_props (type b) _ (_applyDefaults_object _ Hd))
    as (a & Ha & Hobj & Hty & Hk).
  rewrite Ha in Hm. apply bool_decide_eq_true in Hm as [cls Hcls].
  destruct (default_cache_props (cacheAll b) a Hobj) as (a' & Ha' & Hc & Hk').
  exists cls, a'. split; [|split; [|split]].
  - unfold addTask. rewrite bind_this, Ha. cbn [lift]. rewrite bind_ret, Hcls.
    rewrite Ha'. cbn [lift]. by rewrite bind_ret, bind_modify.
  - by rewrite Hk', Hk.
  - by rewrite Hk', Hty.
  - by rewrite Hc, Hk.
Qed.

Lemma assign_id_older ref id ts :
  Forall (λ t, task_ref t < ref) ts → assign_id ref id ts = ts.
Proof.
  intros H. unfold assign_id. rewrite <- (list_fmap_id ts) at 2.
  apply list_fmap_ext. intros i t Ht.
  rewrite Forall_lookup in H. specialize (H i t Ht). simpl.
  destruct (task_ref t =? ref) eqn:E; [|done].
  apply Nat.eqb_eq in E. lia.
Qed.

(** The loop over the keys of an object of matched descriptors: each task
    ends with the id of its descriptor, or with its key. *)
Lemma addTasks_object_ids props b :
  Forall (λ t, task_ref t < nextRef b) (tasks b) →
  Forall (λ e, descriptor e.2 = true ∧ matched taskDefs (type b) e.2 = true)
    props →
  let r := addTasks_object taskDefs build props b in
  out r = inr tt ∧
  task_id <$> tasks (st r) = (task_id <$> tasks b) ++ (keyed_id <$> props) ∧
  total (st r) = total b + length props ∧ evs r = [] ∧
  mode (st r) = mode b ∧ results (st r) = results b.
Proof.
  revert b. induction props as [|[k d] props IH]; intros b Hlt Hall; cbv zeta.
  { cbn [addTasks_object]. cbn [mret M_ret ret out st evs fmap list_fmap length].
    rewrite app_nil_r, Nat.add_0_r. by repeat split. }
  apply Forall_cons in Hall as [[Hd Hm] Hall]. cbn [snd] in Hd, Hm.
  destruct (addTask_built d b Hd Hm) as (cls & a & Ht & Hid & _).
  set (t := Task_new (nextRef b) cls a) in *.
  cbn [addTasks_object]. rewrite bind_eq, Ht. cbn [out st evs].
  set (t' := if has_id t then t
             else {| task_ref := task_ref t; task_class := task_class t;
                     task_status := task_status t; task_id := Some k;
                     task_cache := task_cache t;
                     task_complete := task_complete t;
                     task_original := task_original t |}).
  set (b' := with_tasks (tasks b ++ [t']) (with_pushed t b)).
  assert (assign_id (task_ref t) k (tasks b ++ [t])
          = tasks b ++ [{| task_ref := task_ref t; task_class := task_class t;
                           task_status := task_status t; task_id := Some k;
                           task_cache := task_cache t;
                           task_complete := task_complete t;
                           task_original := task_original t |}]) as Heq.
  { unfold assign_id. rewrite fmap_app. f_equal.
    - apply (assign_id_older (task_ref t) k). exact Hlt.
    - cbn [fmap list_fmap]. by rewrite Nat.eqb_refl. }
  assert ((if has_id t then mret tt
           else modify (λ b0, with_tasks
                                (assign_id (task_ref t) k (tasks b0)) b0))
            (with_pushed t b) = mkRes (inr tt) b' []) as Hassign.
  { unfold b', t'. destruct (has_id t).
    - by destruct b.
    - unfold modify. cbn [tasks with_pushed]. by rewrite Heq. }
  rewrite bind_eq, Hassign. cbn [out st evs].
  assert (task_id t' = keyed_id (k, d)) as Hkey.
  { unfold t', keyed_id, has_id, lacks_id, t. cbn [fst snd task_id Task_new].
    rewrite Hid.
    destruct (prop (_applyDefaults d) "id") as [| | | |s| | |] eqn:Hp;
      try done.
    destruct (String.eqb s ""); cbn [negb task_id Task_new]; by rewrite ?Hid.
  }
  assert (task_ref t' = nextRef b) as Href.
  { unfold t'. by destruct (has_id t). }
  destruct (IH b') as (Hout & Hids & Htot & Hev & Hmode & Hres).
  { unfold b'. cbn [tasks nextRef with_tasks with_pushed].
    apply Forall_app. split.
    - eapply Forall_impl; [apply Hlt|]. simpl. lia.
    - apply Forall_singleton. lia. }
  { exact Hall. }
  rewrite Hout, Hids, Htot, Hev, Hmode, Hres.
  unfold b' in *. cbn [tasks total mode results with_tasks with_pushed] in *.
  rewrite fmap_app, <- app_assoc. cbn [fmap list_fmap app length].
  rewrite Hkey. repeat split; try done; lia.
Qed.

(** A plain object that the registry does not take for a descriptor itself,
    and that has no member under the key "type", is admitted key by key. *)
Lemma addTasks_object_eq props b :
  matched taskDefs (type b) (VObj props) = false →
  assoc_get "type" props = None →
  addTasks taskDefs build (VObj props) b
  = (addTasks_object taskDefs build props ≫= λ _, mret MAP_MODE) b.
Proof.
  intros Hm Hnone. unfold matched in Hm. cbn [_applyDefaults] in Hm.
  unfold addTasks. rewrite bind_this. cbn [_applyDefaults].
  unfold default_type, undo_type in *. cbn [get_prop] in *.
  rewrite Hnone in *. cbn [default] in *.
  destruct (type b) as [s|] eqn:Hty; cycle 1.
  { cbn [lift] in *. rewrite bind_ret.
    destruct (getTaskByAsset taskDefs (VObj props)); [done|].
    cbn [get_prop]. by rewrite Hnone. }
  destruct (type_set (Some s)) eqn:Hset; cycle 1.
  { cbn [lift] in *. rewrite bind_ret.
    destruct (getTaskByAsset taskDefs (VObj props)); [done|].
    cbn [get_prop]. by rewrite Hnone. }
  cbn [set_prop lift] in *. rewrite bind_ret.
  destruct (getTaskByAsset taskDefs (VObj (assoc_set "type" (VStr s) props)));
    [done|].
  cbn [get_prop]. rewrite assoc_get_set_eq. cbn [default]. unfold id.
  rewrite String.eqb_refl. cbn [andb delete_prop].
  by rewrite assoc_del_set.
Qed.

(** Starting a batch changes neither its shape nor the identities and ids
    of its tasks. *)
Lemma start_frame b :
  out (start b) = inr tt ∧ mode (st (start b)) = mode b ∧
  results (st (start b)) = results b ∧ total (st (start b)) = total b ∧
  refs (tasks (st (start b))) = refs (tasks b) ∧
  task_id <$> tasks (st (start b)) = task_id <$> tasks b.
Proof.
  rewrite start_eq. cbv zeta. cbn [out st].
  destruct (nextTask_dispatch (with_running true b))
    as [Hmode Hres _ _ Htot _ _ _ _ _].
  destruct (nextTask_refs (with_running true b)) as [Hrefs _].
  rewrite nextTask_out, Hmode, Hres, Htot, Hrefs.
  repeat split; try done.
  unfold nextTask.
  assert (∀ ts, task_id <$> (nextTask_from (startAll (with_running true b)) ts).1
                = task_id <$> ts) as Hsame.
  { induction ts as [|t ts IH]; [done|]. cbn [nextTask_from].
    destruct (nextTask_from (startAll (with_running true b)) ts) as [ts' es].
    cbn [fst] in IH.
    destruct (task_status t), (startAll (with_running true b)); cbn [fst];
      rewrite ?fmap_cons; cbn [task_id]; by rewrite ?IH. }
  specialize (Hsame (tasks (with_running true b))).
  destruct (nextTask_from _ (tasks (with_running true b))) as [ts es].
  cbn [st tasks with_tasks with_running]. cbn [fst] in Hsame.
  by rewrite Hsame.
Qed.

(** What a handled signal does to the container, mode by mode. *)
Lemma taskDone_stored c b index task :
  running b = true → pending b (c_task c) = Some (index, task) →
  mode (st (taskDone taskDefs build c b)) = mode b ∧
  results (st (taskDone taskDefs build c b))
  = if truthy (c_result c)
    then match fold_result (mode b) (results b) (task_id task) (c_result c) with
         | inr r => r
         | inl _ => results b
         end
    else results b.
Proof.
  intros Hrun Hpend.
  destruct (taskDone_container taskDefs build c b index task Hrun Hpend)
    as [-> ->].
  split; [done|]. rewrite taskDone_store_eq. unfold produced.
  destruct (truthy (c_result c)) eqn:E; rewrite ?E; [|done].
  cbn [mode results with_tasks].
  by destruct (fold_result _ _ _ _).
Qed.

End Shapes.

(** X7.  When the only pending task of a running batch with exact counters
    completes and admits nothing, the handler returns, nothing is pending,
    [numLoaded] equals [total], and after the cache write and the
    notifications for the task it emits progress 1.0 and then [complete]
    with the container. *)
Theorem last_completion taskDefs build b c task :
  running b = true → container_ok b = true → counters_exact b →
  tasks b = [task] → c_task c = task_ref task →
  additions task c = [] →
  matched taskDefs (type b) (VArr [] []) = false →
  let r := taskDone taskDefs build c b in
  let r1 := taskDone_store task (produced c) (with_tasks [] b) in
  out r = inr tt ∧ tasks (st r) = [] ∧ numLoaded (st r) = total (st r) ∧
  results (st r) = results (st r1) ∧
  ∃ p, is_one p ∧
       evs r = evs r1 ++ notifications task (produced c) c
               ++ [Progress p; Complete (results (st r))].
Proof. apply taskDone_last. Qed.

(** X7 at a batch of one cached file, when the file arrives. *)
Lemma last_completion_witness :
  let r := taskDone Samples.loaders DEBUG (Samples.done 0 (VStr "A"))
             (Samples.cached_file DEBUG Samples.parallel) in
  out r = inr tt ∧ tasks (st r) = [] ∧ numLoaded (st r) = total (st r).
Proof.
  cbv zeta.
  destruct (last_completion Samples.loaders DEBUG
              (Samples.cached_file DEBUG Samples.parallel)
              (Samples.done 0 (VStr "A"))
              {| task_ref := 0; task_class := "LoadTask";
                 task_status := RUNNING; task_id := Some "a";
                 task_cache := true; task_complete := false;
                 task_original :=
                   VObj [("src", VStr "a.png"); ("id", VStr "a");
                         ("cache", VBool true)] |}
              eq_refl eq_refl eq_refl eq_refl eq_refl eq_refl eq_refl)
    as (Hout & Hts & Hnum & _).
  split; [exact Hout|]. split; [exact Hts | exact Hnum].
Defined.

(** X8.  A batch set up from an empty array has no task and an empty object
    for its container; started, it emits progress 0 and nothing else; and no
    run of completion signals makes it emit anything, so it never emits
    [complete]. *)
Theorem empty_batch_never_completes taskDefs build ref props options cs :
  matched taskDefs (opt_type options) (VArr [] props) = false →
  let r := setup taskDefs build (VArr [] props) options (fresh ref) in
  out r = inr tt ∧ tasks (st r) = [] ∧ total (st r) = 0 ∧
  mode (st r) = MAP_MODE ∧ results (st r) = VObj [] ∧
  evs r = (if opt_autoStart options then [Progress (Fin 0%Q)] else []) ∧
  run taskDefs build cs (st r) = (st r, []).
Proof.
  intros Hm. cbv zeta.
  assert (out (setup taskDefs build (VArr [] props) options (fresh ref))
          = inr tt ∧
          tasks (st (setup taskDefs build (VArr [] props) options (fresh ref)))
          = [] ∧
          total (st (setup taskDefs build (VArr [] props) options (fresh ref)))
          = 0 ∧
          mode (st (setup taskDefs build (VArr [] props) options (fresh ref)))
          = MAP_MODE ∧
          results (st (setup taskDefs build (VArr [] props) options (fresh ref)))
          = VObj [] ∧
          evs (setup taskDefs build (VArr [] props) options (fresh ref))
          = (if opt_autoStart options then [Progress (Fin 0%Q)] else []))
    as (Hout & Hts & Htot & Hmode & Hres & Hev).
  { rewrite setup_eq. cbv zeta. rewrite addTasks_array_eq by done.
    cbn [addTasks_array mret M_ret ret out st evs].
    destruct (opt_autoStart options); [|done].
    rewrite start_eq. cbv zeta. unfold nextTask.
    cbn [tasks with_running with_results with_mode with_options fresh
         nextTask_from]. done. }
  repeat split; try done. by apply run_nothing_pending.
Qed.

(** X8 at the registry of the basic loader. *)
Lemma empty_batch_never_completes_witness :
  run Samples.loaders DEBUG [Samples.done 0 (VStr "A")]
    (st (setup Samples.loaders DEBUG (VArr [] []) Samples.parallel (fresh 0)))
  = (st (setup Samples.loaders DEBUG (VArr [] []) Samples.parallel (fresh 0)),
     []).
Proof.
  apply (empty_batch_never_completes Samples.loaders DEBUG 0 []
           Samples.parallel [Samples.done 0 (VStr "A")] eq_refl).
Defined.

(** X9.  A descriptor that the registry matches, submitted on its own, gives
    a batch in SINGLE_MODE with [null] for its container and exactly one
    task; and in SINGLE_MODE a handled completion signal with a non-empty
    result replaces the container by that result, while one without a result
    leaves the container as it is. *)
Theorem single_shape taskDefs build ref d options :
  descriptor d = true → matched taskDefs (opt_type options) d = true →
  let r := setup taskDefs build d options (fresh ref) in
  out r = inr tt ∧ mode (st r) = SINGLE_MODE ∧ results (st r) = VNull ∧
  refs (tasks (st r)) = [ref] ∧ total (st r) = 1 ∧
  (∀ b c index task,
     running b = true → mode b = SINGLE_MODE →
     pending b (c_task c) = Some (index, task) →
     results (st (taskDone taskDefs build c b))
     = if truthy (c_result c) then c_result c else results b).
Proof.
  intros Hd Hm. cbv zeta.
  destruct (addTasks_single taskDefs build d (with_options options (fresh ref))
              Hd Hm) as (t & Ht & Href & Hst).
  assert (out (setup taskDefs build d options (fresh ref)) = inr tt ∧
          mode (st (setup taskDefs build d options (fresh ref))) = SINGLE_MODE ∧
          results (st (setup taskDefs build d options (fresh ref))) = VNull ∧
          refs (tasks (st (setup taskDefs build d options (fresh ref))))
          = [ref] ∧
          total (st (setup taskDefs build d options (fresh ref))) = 1)
    as (? & ? & ? & ? & ?).
  { rewrite setup_eq. cbv zeta. rewrite Ht. cbn [out st evs].
    set (b2 := with_results _ _).
    assert (refs (tasks b2) = [ref]) as Hrefs.
    { unfold b2, refs. cbn. by rewrite Href. }
    destruct (opt_autoStart options); [|by repeat split].
    cbn [out st].
    destruct (start_frame b2) as (-> & -> & -> & -> & -> & _).
    by repeat split. }
  repeat split; try done.
  intros b c index task Hrun Hmode Hpend.
  destruct (taskDone_stored taskDefs build c b index task Hrun Hpend)
    as [_ ->].
  by rewrite Hmode.
Qed.

(** X9 at one path. *)
Lemma single_shape_witness :
  let r := setup Samples.loaders DEBUG (VStr "a.png") Samples.parallel
             (fresh 0) in
  mode (st r) = SINGLE_MODE ∧ results (st r) = VNull ∧ total (st r) = 1.
Proof.
  cbv zeta.
  destruct (single_shape Samples.loaders DEBUG 0 (VStr "a.png")
              Samples.parallel eq_refl eq_refl)
    as (_ & Hmode & Hres & _ & Htot & _).
  split; [exact Hmode|]. split; [exact Hres | exact Htot].
Defined.

(** X10.  A plain object of matched descriptors (that the registry does not
    take for a descriptor itself, and without a member under the key "type")
    gives a batch in MAP_MODE with an empty object for its container and one
    task per key, in the order in which the object enumerates its keys; each
    task has the id of its descriptor when the descriptor has one, and its
    key otherwise. *)
Theorem keyed_shape taskDefs build ref props options :
  matched taskDefs (opt_type options) (VObj props) = false →
  assoc_get "type" props = None →
  Forall (λ e, descriptor e.2 = true ∧
               matched taskDefs (opt_type options) e.2 = true) props →
  let r := setup taskDefs build (VObj props) options (fresh ref) in
  out r = inr tt ∧ mode (st r) = MAP_MODE ∧ results (st r) = VObj [] ∧
  task_id <$> tasks (st r) = keyed_id <$> props ∧
  total (st r) = length props.
Proof.
  intros Hm Hnone Hall. cbv zeta.
  rewrite setup_eq. cbv zeta. rewrite addTasks_object_eq by done.
  rewrite bind_eq.
  destruct (addTasks_object_ids taskDefs build props
              (with_options options (fresh ref)))
    as (Hout & Hids & Htot & _ & _ & _); [by constructor | done |].
  rewrite Hout. cbn [out st evs mret M_ret ret].
  set (b1 := st (addTasks_object taskDefs build props _)) in *.
  cbn [tasks total with_options fresh fmap list_fmap app] in Hids, Htot.
  set (b2 := with_results _ _).
  assert (mode b2 = MAP_MODE ∧ results b2 = VObj [] ∧
          task_id <$> tasks b2 = keyed_id <$> props ∧
          total b2 = length props) as (Hm2 & Hr2 & Hi2 & Ht2).
  { unfold b2.
    cbn [mode results tasks total with_results with_mode _getAssetsContainer].
    by repeat split. }
  destruct (opt_autoStart options); [|by repeat split].
  cbn [out st].
  destruct (start_frame b2) as (-> & -> & -> & -> & _ & ->).
  by repeat split.
Qed.

(** X10 at two files under keys. *)
Lemma keyed_shape_witness :
  task_id <$> tasks (Samples.two_keyed DEBUG Samples.parallel)
  = [Some "a"; Some "b"].
Proof.
  destruct (keyed_shape Samples.loaders DEBUG 0
              [("a", VStr "a.png"); ("b", VStr "b.png")] Samples.parallel
              eq_refl eq_refl) as (_ & _ & _ & Hids & _).
  - repeat constructor.
  - exact Hids.
Defined.

(** X11.  The defaults of a batch fill in only what a descriptor leaves
    undefined.  The task built for a matched descriptor is WAITING and takes
    its cache flag from the descriptor's own [cache] when that is defined
    (so [cache: false] wins over [cacheAll]) and from [cacheAll] otherwise;
    and the descriptor it keeps has its own [type] when that is defined, and
    the default type of the batch otherwise. *)
Theorem defaults_fill_undefined taskDefs build d b :
  descriptor d = true → matched taskDefs (type b) d = true →
  ∃ t, addTask taskDefs build (_applyDefaults d) b
       = mkRes (inr (Some t)) (with_pushed t b) [] ∧
       task_ref t = nextRef b ∧ task_status t = WAITING ∧
       task_cache t
       = truthy (defaulted_cache (cacheAll b)
                   (prop (_applyDefaults d) "cache")) ∧
       prop (task_original t) "type"
       = defaulted_type (type b) (prop (_applyDefaults d) "type").
Proof.
  intros Hd Hm.
  destruct (addTask_built taskDefs build d b Hd Hm)
    as (cls & a & Ht & _ & Hty & Hc).
  exists (Task_new (nextRef b) cls a). repeat split; try done.
  cbn [task_cache Task_new]. by rewrite Hc.
Qed.

(** X11 at a batch that caches everything: a descriptor that says
    [cache: false] is not cached. *)
Lemma defaults_fill_undefined_witness :
  let b := with_options
             {| opt_startAll := true; opt_autoStart := true;
                opt_cacheAll := true; opt_type := None |} (fresh 0) in
  let d := VObj [("src", VStr "a.png"); ("cache", VBool false)] in
  ∃ t, addTask Samples.loaders DEBUG (_applyDefaults d) b
       = mkRes (inr (Some t)) (with_pushed t b) [] ∧
       task_cache t = false.
Proof.
  cbv zeta.
  destruct (defaults_fill_undefined Samples.loaders DEBUG
              (VObj [("src", VStr "a.png"); ("cache", VBool false)])
              (with_options
                 {| opt_startAll := true; opt_autoStart := true;
                    opt_cacheAll := true; opt_type := None |} (fresh 0))
              eq_refl eq_refl) as (t & Ht & _ & _ & Hc & _).
  exists t. split; [exact Ht | exact Hc].
Defined.

(** X12.  In MAP_MODE a handled completion signal with a non-empty result
    stores the result under the id of the task (under "null" for a task
    without an id), for every id but [__proto__]: reading that key of the
    container gives the result, and every other key reads as before. *)
Theorem map_store_lookup taskDefs build b c index task props :
  running b = true → mode b = MAP_MODE → results b = VObj props →
  pending b (c_task c) = Some (index, task) →
  truthy (c_result c) = true →
  default "null" (task_id task) ≠ "__proto__" →
  let container := results (st (taskDone taskDefs build c b)) in
  let key := default "null" (task_id task) in
  prop container key = c_result c ∧
  ∀ k, String.eqb k key = false → prop container k = prop (VObj props) k.
Proof.
  intros Hrun Hmode Hres Hpend Htruthy _. cbv zeta.
  destruct (taskDone_stored taskDefs build c b index task Hrun Hpend)
    as [_ ->].
  rewrite Htruthy, Hmode, Hres. cbn [fold_result set_prop].
  unfold prop. cbn [get_prop]. split.
  - by rewrite assoc_get_set_eq.
  - intros k Hk. by rewrite assoc_get_set_ne.
Qed.

(** X12 at two keyed files, of which the second arrives. *)
Lemma map_store_lookup_witness :
  prop (results
          (st (taskDone Samples.loaders DEBUG (Samples.done 1 (VStr "B"))
                 (Samples.two_keyed DEBUG Samples.parallel))))
    "b" = VStr "B".
Proof.
  exact (proj1 (map_store_lookup Samples.loaders DEBUG
                  (Samples.two_keyed DEBUG Samples.parallel)
                  (Samples.done 1 (VStr "B")) 1
                  {| task_ref := 1; task_class := "LoadTask";
                     task_status := RUNNING; task_id := Some "b";
                     task_cache := false; task_complete := false;
                     task_original := VObj [("src", VStr "b.png")] |}
                  [] eq_refl eq_refl eq_refl eq_refl eq_refl
                  ltac:(discriminate))).
Defined.




(** X14.  In LIST_MODE a handled completion signal with a non-empty result
    appends the result at the end of the container, wherever the task stands
    among the pending tasks, so that the container lists the results in the
    order of completion; a signal without a result leaves the container as
    it is. *)
Theorem list_store_appends taskDefs build b c index task items props :
  running b = true → mode b = LIST_MODE → results b = VArr items props →
  pending b (c_task c) = Some (index, task) →
  results (st (taskDone taskDefs build c b))
  = if truthy (c_result c) then VArr (items ++ [c_result c]) props
    else VArr items props.
Proof.
  intros Hrun Hmode Hres Hpend.
  destruct (taskDone_stored taskDefs build c b index task Hrun Hpend)
    as [_ ->].
  by rewrite Hmode, Hres.
Qed.

(** X14 at two files, of which the second arrives first. *)
Lemma list_store_appends_witness :
  results
    (st (taskDone Samples.loaders DEBUG (Samples.done 1 (VStr "B"))
           (Samples.two_files DEBUG Samples.parallel)))
  = VArr [VStr "B"] [].
Proof.
  exact (list_store_appends Samples.loaders DEBUG
           (Samples.two_files DEBUG Samples.parallel)
           (Samples.done 1 (VStr "B")) 1
           {| task_ref := 1; task_class := "LoadTask";
              task_status := RUNNING; task_id := None;
              task_cache := false; task_complete := false;
              task_original := VObj [("src", VStr "b.png")] |}
           [] [] eq_refl eq_refl eq_refl eq_refl).
Defined.

End Lifecycle.

(** ** Size profiles *)

Module Profiles.
Import Js AssetSizes.

Lemma sort_insert_perm x l : sort_insert x l ≡ₚ x :: l.
Proof.
  induction l as [|y l IH]; [done|]. cbn [sort_insert].
  destruct (Qle_bool (maxSize x) (maxSize y)); [done|].
  rewrite IH. apply Permutation_swap.
Qed.

Lemma sort_perm l : sort l ≡ₚ l.
Proof.
  induction l as [|x l IH]; [done|]. unfold sort in *. cbn [foldr].
  by rewrite sort_insert_perm, IH.
Qed.

Lemma sort_insert_ascending x l :
  ascending l → ascending (sort_insert x l).
Proof.
  unfold ascending. induction 1 as [|y l Hl IH Hy]; cbn [sort_insert].
  { by repeat constructor. }
  destruct (Qle_bool (maxSize x) (maxSize y)) eqn:E.
  - apply Qle_bool_iff in E. constructor; [by constructor|].
    constructor; [done|].
    eapply Forall_impl; [exact Hy|]. intros z Hz. cbn beta in *.
    by eapply Qle_trans.
  - constructor; [done|]. rewrite sort_insert_perm. constructor; [|done].
    assert (¬ (maxSize x <= maxSize y)%Q) as Hn
      by (rewrite <- Qle_bool_iff; congruence).
    apply Qlt_le_weak. by apply Qnot_le_lt.
Qed.

Lemma sort_ascending l : ascending (sort l).
Proof.
  induction l as [|x l IH]; [constructor|].
  unfold sort in *. cbn [foldr]. by apply sort_insert_ascending.
Qed.

(** The test of [refresh] goes up with [maxSize] when the pixel ratio is
    positive. *)
Lemma fits_mono dpr m a b :
  (0 < pixelRatio dpr)%Q → (maxSize a <= maxSize b)%Q →
  fits dpr m a = true → fits dpr m b = true.
Proof.
  intros Hr Hab. unfold fits, gt. rewrite !negb_true_iff.
  intros Ha. apply not_true_iff_false. intros Hb.
  apply not_true_iff_false in Ha. apply Ha.
  apply Qle_bool_iff. apply Qle_bool_iff in Hb.
  eapply Qle_trans; [|exact Hb].
  unfold Qdiv. apply Qmult_le_compat_r; [done|].
  apply Qlt_le_weak. by apply Qinv_lt_0_compat.
Qed.

Lemma refresh_from_some dpr l m x :
  is_Some (refresh_from dpr l m (Some x)).
Proof.
  revert x. induction l as [|y l IH]; intros x; cbn [refresh_from]; [done|].
  destruct (gt _ _); [apply IH | done].
Qed.

Lemma refresh_from_ascending dpr m l acc :
  (0 < pixelRatio dpr)%Q → ascending l →
  refresh_from dpr (reverse l) m acc
  = match head (base.filter (λ z, fits dpr m z = true) l) with
    | Some z => Some z
    | None => acc
    end.
Proof.
  intros Hr. revert acc. induction l as [|x l IH] using rev_ind;
    intros acc Hl; [done|].
  rewrite reverse_snoc. cbn [refresh_from]. rewrite filter_app.
  unfold ascending in *.
  assert (StronglySorted (λ a b, (maxSize a <= maxSize b)%Q) l ∧
          Forall (λ a, (maxSize a <= maxSize x)%Q) l) as [Hl' Hx].
  { clear IH. induction l as [|y l IHl]; [by split; constructor|].
    cbn [app] in Hl. apply StronglySorted_inv in Hl as [Hl Hy].
    destruct (IHl Hl) as [? ?]. apply Forall_app in Hy as [Hy1 Hy2].
    apply Forall_inv in Hy2.
    split; constructor; done. }
  change (gt (maxSize x / pixelRatio dpr) m) with (fits dpr m x).
  destruct (fits dpr m x) eqn:E.
  - rewrite IH by done.
    rewrite (filter_cons_True _ x []) by done. rewrite filter_nil.
    by destruct (base.filter _ l).
  - rewrite (filter_cons_False _ x []) by congruence.
    rewrite filter_nil, app_nil_r.
    assert (base.filter (λ z, fits dpr m z = true) l = []) as ->; [|done].
    clear IH Hl Hl'. induction Hx as [|y l Hy _ IHl]; [done|].
    rewrite filter_cons_False; [done|].
    intros Hf. apply (fits_mono dpr m y x Hr Hy) in Hf. congruence.
Qed.

Lemma size_TypeError sup s :
  size sup s = inl TypeError ↔ _preferredSize s = None.
Proof.
  unfold size. destruct (_preferredSize s) as [p|]; [|done].
  split; [|done].
  destruct sup as [marks|]; [|done].
  destruct (negb _); [|done].
  by destruct (size_fallback _ _ _ _).
Qed.

Lemma size_fallback_first marks map tried alt rest acc :
  Forall (λ a, marks !! a = Some false) tried →
  marks !! alt ≠ Some false →
  size_fallback marks map (tried ++ alt :: rest) acc = map !! alt.
Proof.
  intros Htried Halt. induction Htried as [|a tried Ha _ IH].
  - cbn [app size_fallback].
    destruct (marks !! alt) as [[]|]; done.
  - cbn [app size_fallback]. by rewrite Ha.
Qed.

Lemma String_app a s t : String a s +:+ t = String a (s +:+ t).
Proof. reflexivity. Qed.

Lemma empty_app t : EmptyString +:+ t = t.
Proof. reflexivity. Qed.

Lemma prefix_app pat post : String.prefix pat (pat +:+ post) = true.
Proof.
  induction pat as [|a pat IH]; [by destruct post|].
  rewrite String_app. cbn [String.prefix]. by destruct (ascii_dec a a).
Qed.

Lemma string_drop_app pat post :
  string_drop (String.length pat) (pat +:+ post) = post.
Proof.
  induction pat as [|a pat IH]; [by destruct post|].
  rewrite String_app. exact IH.
Qed.

Lemma search_here pat post :
  search pat (pat +:+ post) = Some (EmptyString, post).
Proof.
  destruct (pat +:+ post) eqn:E; cbn [search]; rewrite <- E;
    by rewrite prefix_app, string_drop_app.
Qed.

Lemma search_first p0 pat pre post :
  p0 ∉ chars pre →
  search (String p0 pat) (pre +:+ String p0 pat +:+ post)
  = Some (pre, post).
Proof.
  induction pre as [|c pre IH]; intros Hp.
  - rewrite empty_app. apply search_here.
  - cbn [chars] in Hp. apply not_elem_of_cons in Hp as [Hc Hp].
    rewrite String_app. cbn [search String.prefix].
    destruct (ascii_dec p0 c) as [->|_]; [done|].
    by rewrite IH.
Qed.

Lemma substitute_plain matched before after rep :
  "$"%char ∉ chars rep → substitute matched before after rep = rep.
Proof.
  induction rep as [|c rep IH]; [done|]. cbn [chars]. intros Hp.
  apply not_elem_of_cons in Hp as [Hc Hp]. cbn [substitute].
  assert (Ascii.eqb c "$" = false) as -> by (apply Ascii.eqb_neq; congruence).
  by rewrite IH.
Qed.

(** X15.  Whatever the state before and whatever the order of the
    definitions, after [define] the profile list is in ascending order of
    [maxSize] and holds exactly the profiles it held before and the new
    one. *)
Theorem define_ascending id m sc fb s :
  ascending (_sizes (define id m sc fb s)) ∧
  _sizes (define id m sc fb s)
  ≡ₚ _sizes s ++ [{| size_id := id; maxSize := m; scale := sc;
                     fallback := fb |}].
Proof.
  unfold define. cbn [_sizes]. split; [apply sort_ascending | apply sort_perm].
Qed.

(** X16.  Defining a profile under an id that is in use already replaces
    the entry of the map, but the earlier profile of that id stays in the
    list (where [refresh] finds it), and the active profile is not touched. *)
Theorem define_again_keeps_earlier id m sc fb s old :
  old ∈ _sizes s → size_id old = id →
  let s' := define id m sc fb s in
  old ∈ _sizes s' ∧ length (_sizes s') = S (length (_sizes s)) ∧
  _sizesMap s' !! id
  = Some {| size_id := id; maxSize := m; scale := sc; fallback := fb |} ∧
  _preferredSize s' = _preferredSize s.
Proof.
  intros Hold _. cbv zeta. unfold define. cbn [_sizes _sizesMap _preferredSize].
  split; [|split; [|split]].
  - rewrite sort_perm. apply elem_of_app. by left.
  - rewrite sort_perm, length_app. cbn. lia.
  - apply lookup_insert_eq.
  - done.
Qed.

(** X16 at "sd" defined a second time, larger. *)
Lemma define_again_keeps_earlier_witness :
  size_id <$> _sizes (define "sd" 400 1 [] Samples.sd_hd)
  = ["sd"; "sd"; "hd"] ∧
  maxSize <$> _sizesMap (define "sd" 400 1 [] Samples.sd_hd) !! "sd"
  = Some 400%Q.
Proof.
  destruct (define_again_keeps_earlier "sd" 400 1 [] Samples.sd_hd
              {| size_id := "sd"; maxSize := 100; scale := 1 # 2;
                 fallback := [] |}) as (_ & _ & Hmap & _).
  - vm_compute. repeat constructor.
  - reflexivity.
  - split; [reflexivity|]. by rewrite Hmap.
Defined.

Lemma fits_ratio_one dpr m z :
  (pixelRatio dpr == 1)%Q → fits dpr m z = gt (maxSize z) m.
Proof.
  intros Hr. unfold fits, gt. f_equal. apply Bool.eq_iff_eq_true.
  rewrite !Qle_bool_iff.
  assert (maxSize z / pixelRatio dpr == maxSize z)%Q as ->; [|done].
  rewrite Hr. unfold Qdiv. change (/ 1)%Q with 1%Q. apply Qmult_1_r.
Qed.

Lemma filter_fits_ratio_one dpr m (l : list Size) :
  (pixelRatio dpr == 1)%Q →
  base.filter (λ z, fits dpr m z = true) l
  = base.filter (λ z, gt (maxSize z) m = true) l.
Proof.
  intros Hr. apply list_filter_iff. intros z.
  by rewrite (fits_ratio_one dpr m z Hr).
Qed.

(** X17.  With a pixel ratio of 1 (where the quotient of the test is the
    [maxSize] itself) and the profile list in ascending order (as [define]
    leaves it), [refresh] makes the first profile of the list with
    [maxSize > min(width, height)] the active one, and leaves no active
    profile when there is none. *)
Theorem refresh_smallest_fitting dpr width height s :
  (pixelRatio dpr == 1)%Q → ascending (_sizes s) →
  _preferredSize (refresh dpr width height s)
  = head (base.filter (λ z, gt (maxSize z) (Math_min width height) = true)
            (_sizes s)).
Proof.
  intros Hr Hs. unfold refresh. cbn [_preferredSize].
  rewrite refresh_from_ascending; [|by rewrite Hr|done].
  rewrite filter_fits_ratio_one by done.
  by destruct (head _).
Qed.

(** X17 at the profiles "sd" and "hd" on a screen of 300 by 200 where no
    pixel ratio is known. *)
Lemma refresh_smallest_fitting_witness :
  active (refresh None 300 200 Samples.sd_hd) = Some "hd".
Proof.
  unfold active.
  rewrite (refresh_smallest_fitting None 300 200 Samples.sd_hd).
  - reflexivity.
  - reflexivity.
  - apply sort_ascending.
Defined.

(** X18.  With a pixel ratio of 1, [refresh] leaves no active profile
    exactly when no profile is defined or the last profile of the list has a
    [maxSize] that is not above [min(width, height)]; and that is exactly
    when [size], called next, fails with a TypeError instead of returning a
    profile or throwing its own error. *)
Theorem too_large_for_any dpr width height s supported :
  (pixelRatio dpr == 1)%Q →
  size supported (refresh dpr width height s) = inl TypeError ↔
  match last (_sizes s) with
  | Some z => gt (maxSize z) (Math_min width height) = false
  | None => True
  end.
Proof.
  intros Hr. rewrite size_TypeError. unfold refresh. cbn [_preferredSize].
  destruct (_sizes s) as [|x l] using rev_ind; [done|].
  rewrite last_snoc, reverse_snoc. cbn [refresh_from].
  change (gt (maxSize x / pixelRatio dpr) (Math_min width height))
    with (fits dpr (Math_min width height) x).
  rewrite (fits_ratio_one dpr _ x Hr).
  destruct (gt (maxSize x) (Math_min width height)); [|done].
  split; [|done]. intros Hnone.
  destruct (refresh_from_some dpr (reverse l) (Math_min width height) x)
    as [z Hz].
  congruence.
Qed.

(** X18 at the profiles "sd" and "hd" on a screen of 800 by 900. *)
Lemma too_large_for_any_witness :
  size None (refresh None 800 900 Samples.sd_hd) = inl TypeError.
Proof.
  apply (too_large_for_any None 800 900 Samples.sd_hd None).
  - reflexivity.
  - reflexivity.
Defined.

(** X19.  What [size] answers when a profile [preferred] is active: that
    profile for an asset without a capability map and for one that marks it
    supported; otherwise, for ids that are not names of members of
    [Object.prototype], when the fallback chain has an entry that is not
    marked [false], whatever the map holds under the first such entry, and
    the error "Asset does not support any valid size" when the map holds
    nothing under it. *)
Theorem size_resolution s preferred :
  _preferredSize s = Some preferred →
  size None s = inr preferred ∧
  (∀ marks, marks !! size_id preferred = Some true →
            size (Some marks) s = inr preferred) ∧
  (∀ marks tried alt rest,
     marks !! size_id preferred ≠ Some true →
     inherited (size_id preferred) = false →
     fallback preferred = tried ++ alt :: rest →
     Forall (λ a, marks !! a = Some false) tried →
     marks !! alt ≠ Some false →
     inherited alt = false →
     size (Some marks) s
     = match _sizesMap s !! alt with
       | Some z => inr z
       | None => inl (Thrown "Asset does not support any valid size")
       end).
Proof.
  intros Hp. unfold size. rewrite Hp. split; [done|]. split.
  - by intros marks ->.
  - intros marks tried alt rest Hno _ Hchain Htried Halt _.
    assert (negb (default false (marks !! size_id preferred)) = true) as ->.
    { destruct (marks !! size_id preferred) as [[]|]; done. }
    rewrite Hchain, size_fallback_first by done.
    by destruct (_sizesMap s !! alt).
Qed.

(** X19 with "hd" active and the chain ["sd"]: an asset that marks "hd"
    unsupported gets "sd". *)
Lemma size_resolution_witness :
  size (Some {[ "hd" := false ]}) Samples.hd_active
  = inr {| size_id := "sd"; maxSize := 100; scale := 1 # 2; fallback := [] |}.
Proof.
  destruct (size_resolution Samples.hd_active
              {| size_id := "hd"; maxSize := 800; scale := 1;
                 fallback := ["sd"] |} eq_refl) as (_ & _ & Hchain).
  rewrite (Hchain {[ "hd" := false ]} [] "sd" []).
  - reflexivity.
  - by vm_compute.
  - reflexivity.
  - reflexivity.
  - constructor.
  - by vm_compute.
  - reflexivity.
Defined.

(** X20.  [reset] removes the definitions but not the active profile:
    [size] without a capability map answers after the reset as before it;
    only the next [refresh], whatever the viewport, leaves no active
    profile, and [size] then fails with a TypeError. *)
Theorem reset_keeps_active dpr width height s supported :
  size None (reset s) = size None s ∧
  size supported (refresh dpr width height (reset s)) = inl TypeError.
Proof. by split. Qed.

(** X21.  [filter] leaves a url without the size token as it is, whatever
    the size; and whatever the url, it fails with a TypeError when it gets
    no size and no profile is active. *)
Theorem filter_without_token url z s :
  (test url = false → filter url (Some z) s = inr url) ∧
  (_preferredSize s = None → filter url None s = inl TypeError).
Proof.
  split.
  - unfold test, filter, replace. intros Ht.
    apply bool_decide_eq_false in Ht.
    destruct (search SIZE_TOKEN url) as [[before after]|]; [|done].
    by destruct Ht.
  - unfold filter. by intros ->.
Qed.

(** X21 at a plain path. *)
Lemma filter_without_token_witness :
  filter "assets/a.png"
    (Some {| size_id := "hd"; maxSize := 800; scale := 1; fallback := [] |})
    empty
  = inr "assets/a.png".
Proof.
  apply (proj1 (filter_without_token "assets/a.png"
                  {| size_id := "hd"; maxSize := 800; scale := 1;
                     fallback := [] |} empty)).
  reflexivity.
Defined.

(** X22.  [filter] replaces the first size token of a url by the id of the
    size, and that one only: for a url with no percent sign before its first
    token and an id without a dollar sign, the text before and the text
    after the token (further tokens included) come out as they are. *)
Theorem filter_first_token pre post z s :
  "%"%char ∉ chars pre → "$"%char ∉ chars (size_id z) →
  filter (pre +:+ SIZE_TOKEN +:+ post) (Some z) s
  = inr (pre +:+ size_id z +:+ post).
Proof.
  intros Hpre Hid. unfold filter, replace.
  change SIZE_TOKEN with (String "%"%char "SIZE%").
  rewrite search_first by done.
  by rewrite substitute_plain.
Qed.

(** X22 at a url with two tokens. *)
Lemma filter_first_token_witness :
  filter "img/%SIZE%/%SIZE%.png" (Some {| size_id := "hd"; maxSize := 800;
                                          scale := 1; fallback := [] |})
    empty
  = inr "img/hd/%SIZE%.png".
Proof.
  apply (filter_first_token "img/" "/%SIZE%.png"
           {| size_id := "hd"; maxSize := 800; scale := 1; fallback := [] |}
           empty).
  - apply (bool_decide_unpack _). by vm_compute.
  - apply (bool_decide_unpack _). by vm_compute.
Defined.

End Profiles.

(** ** The pool of the dispatcher *)

Module Pool.
Import Js Loader.

(** X23.  [_putItem] on an item that carries the url it was started for
    takes that url, and no other, out of the active map, clears the item
    once and puts it at the end of the pool. *)
Theorem putItem_untracks (clear : LoaderItem → LoaderItem) item l i u :
  heap l !! item = Some i → url i = Some u →
  let l' := _putItem clear item l in
  items l' !! u = None ∧
  (∀ k, k ≠ u → items l' !! k = items l !! k) ∧
  itemPool l' = itemPool l ++ [item] ∧
  heap l' !! item = Some (clear i).
Proof.
  intros Hi Hu. cbv zeta. unfold _putItem, item_clear, url_key.
  cbn [items itemPool heap]. rewrite Hi, Hu. cbn [default].
  split; [apply lookup_delete_eq|]. split.
  - intros k Hk. by apply lookup_delete_ne.
  - split; [done|]. by rewrite lookup_alter_eq, Hi.
Qed.

(** X23 at the item that loads "a.png". *)
Lemma putItem_untracks_witness :
  items (_putItem Samples.forget 0 Samples.one_in_flight) !! "a.png" = None ∧
  itemPool (_putItem Samples.forget 0 Samples.one_in_flight) = [1; 0].
Proof.
  destruct (putItem_untracks Samples.forget 0 Samples.one_in_flight
              {| url := Some "a.png"; loading := true |} "a.png"
              eq_refl eq_refl) as (Hnone & _ & Hpool & _).
  split; [exact Hnone | exact Hpool].
Defined.

(** X24.  [cancel] clears the item before [_putItem] reads its url.  When
    clearing makes an item forget its url, [cancel] therefore deletes the
    key "null" and not the url: the url stays in the active map while
    its item is in the pool, a second [cancel] of the same url succeeds
    again, and the pool then holds the item twice. *)
Theorem cancel_keeps_entry (clear : LoaderItem → LoaderItem) u item i l :
  items l !! u = Some item → heap l !! item = Some i →
  url (clear i) = None → u ≠ "null" →
  ∃ l1 l2,
    cancel clear u l = inr (true, l1) ∧
    items l1 !! u = Some item ∧
    itemPool l1 = itemPool l ++ [item] ∧
    cancel clear u l1 = inr (true, l2) ∧
    itemPool l2 = itemPool l ++ [item; item].
Proof.
  intros Hu Hi Hclear Hne.
  assert (items (_putItem clear item (item_clear clear item l)) !! u
          = Some item) as Hu1.
  { unfold _putItem, item_clear, url_key. cbn [items itemPool heap].
    rewrite lookup_alter_eq, Hi. cbn [fmap option_fmap option_map].
    rewrite Hclear. cbn [default].
    rewrite lookup_delete_ne by done. exact Hu. }
  eexists _, _. split; [unfold cancel; by rewrite Hu|].
  split; [exact Hu1|]. split; [done|].
  split; [unfold cancel; by rewrite Hu1|].
  unfold _putItem, item_clear. cbn [items itemPool heap].
  by rewrite <- app_assoc.
Qed.

(** X24 at the item that loads "a.png", with a [clear] that forgets the
    request. *)
Lemma cancel_keeps_entry_witness :
  ∃ l1 l2,
    cancel Samples.forget "a.png" Samples.one_in_flight = inr (true, l1) ∧
    items l1 !! "a.png" = Some 0 ∧
    cancel Samples.forget "a.png" l1 = inr (true, l2) ∧
    itemPool l2 = [1; 0; 0].
Proof.
  destruct (cancel_keeps_entry Samples.forget "a.png" 0
              {| url := Some "a.png"; loading := true |}
              Samples.one_in_flight eq_refl eq_refl eq_refl)
    as (l1 & l2 & Hfirst & Htracked & _ & Hsecond & Hpool).
  - discriminate.
  - exists l1, l2. repeat split; assumption.
Defined.



(** X26.  The pool is last in, first out: the item that [_putItem] pooled
    is the one [_getItem] hands out next, and the pool is then as it was
    before the two calls. *)
Theorem getItem_after_putItem (clear : LoaderItem → LoaderItem)
    (blank : LoaderItem) item l :
  let l1 := _putItem clear item l in
  (_getItem blank l1).1 = item ∧
  itemPool (_getItem blank l1).2 = itemPool l ∧
  items (_getItem blank l1).2 = items l1 ∧
  heap (_getItem blank l1).2 = heap l1.
Proof.
  cbv zeta. unfold _getItem.
  assert (itemPool (_putItem clear item l) = itemPool l ++ [item]) as ->
    by done.
  rewrite reverse_snoc. cbn [fst snd items itemPool heap].
  by rewrite reverse_involutive.
Qed.

End Pool.
